(** * geo.hpp: exact planar geometry primitives

    A shallow embedding of [src/geo.hpp] (namespace [geo]) and the
    properties of its matrices, fractions and segment predicates.

    The numeric template parameter [T] is instantiated with the exact
    integers: [T := Z], the C++ operators [/] and [%] are the truncating
    [Z.quot] and [Z.rem].  Conditions under which the C++ code does not
    return normally (a failed [assert], the [std::domain_error] thrown by
    the [Fraction] constructor, a division by zero) are values of [error],
    and every function that can meet one returns a [result]. *)

From Stdlib Require Import ZArith QArith Bool List Lia Psatz Znumtheory.
From Stdlib Require Import Ascii.
From Stdlib Require String Decimal DecimalString DecimalZ.
Import String.StringSyntax.
From Equations Require Import Equations.
Import ListNotations.

Local Open Scope Z_scope.

(** ** Failure conditions and the error monad *)

Inductive error : Set :=
| AssertionFailed   (* assert(values.size() == vals.size()) *)
| DomainError       (* throw std::domain_error("division by 0") *)
| DivisionByZero.   (* operator/ with a zero divisor *)

Inductive result (A : Type) : Type :=
| Ok (a : A)
| Err (e : error).

Arguments Ok {A} a.
Arguments Err {A} e.

Definition bind {A B : Type} (m : result A) (k : A -> result B) : result B :=
  match m with
  | Ok a => k a
  | Err e => Err e
  end.

Notation "v <- m ;; k" := (bind m (fun v => k))
  (at level 61, m at next level, right associativity).

(** [a && b] and [a || b] on operands that are calls: the right operand is
    evaluated only when the left one does not decide the result. *)
Definition and_then (a b : result bool) : result bool :=
  v <- a ;; if v then b else Ok false.

Definition or_else (a b : result bool) : result bool :=
  v <- a ;; if v then Ok true else b.

Definition not_ (a : result bool) : result bool :=
  v <- a ;; Ok (negb v).

(** [a / b] on [T]. *)
Definition div (a b : Z) : result Z :=
  if b =? 0 then Err DivisionByZero else Ok (Z.quot a b).

(** ** Matrices *)

Record Matrix3x3 : Set := { vals3 : list Z }.

(** [Matrix3x3(std::initializer_list<T> values)] *)
Definition Matrix3x3_init (values : list Z) : result Matrix3x3 :=
  if Nat.eqb (length values) 9 then Ok {| vals3 := values |}
  else Err AssertionFailed.

(** [operator[](std::pair<int, int> ix)]: [vals[ix.second * 3 + ix.first]] *)
Definition at3 (m : Matrix3x3) (ix : nat * nat) : Z :=
  nth (snd ix * 3 + fst ix) (vals3 m) 0.

Record Matrix2x2 : Set := { vals2 : list Z }.

Definition Matrix2x2_init (values : list Z) : result Matrix2x2 :=
  if Nat.eqb (length values) 4 then Ok {| vals2 := values |}
  else Err AssertionFailed.

Definition at2 (m : Matrix2x2) (ix : nat * nat) : Z :=
  nth (snd ix * 2 + fst ix) (vals2 m) 0.

(** Determinant of a 3x3 matrix *)
Definition det3 (matrix : Matrix3x3) : Z :=
    at3 matrix (0, 0)%nat * at3 matrix (1, 1)%nat * at3 matrix (2, 2)%nat
  + at3 matrix (0, 1)%nat * at3 matrix (1, 2)%nat * at3 matrix (2, 0)%nat
  + at3 matrix (0, 2)%nat * at3 matrix (1, 0)%nat * at3 matrix (2, 1)%nat
  - at3 matrix (2, 0)%nat * at3 matrix (1, 1)%nat * at3 matrix (0, 2)%nat
  - at3 matrix (2, 1)%nat * at3 matrix (1, 2)%nat * at3 matrix (0, 0)%nat
  - at3 matrix (2, 2)%nat * at3 matrix (1, 0)%nat * at3 matrix (0, 1)%nat.

(** Determinant of a 2x2 matrix *)
Definition det2 (matrix : Matrix2x2) : Z :=
    at2 matrix (0, 0)%nat * at2 matrix (1, 1)%nat
  - at2 matrix (1, 0)%nat * at2 matrix (0, 1)%nat.

(** ** Points and segments *)

Record Point (T : Type) : Type := mkPoint { x : T; y : T }.

Arguments mkPoint {T} x y.
Arguments x {T} p.
Arguments y {T} p.

Definition pos_t (T : Type) : Type := Point T.
Definition seg_t (T : Type) : Type := (pos_t T * pos_t T)%type.

(** ** Greatest common divisor

    [while (b) { T c = b; b = a % b; a = c; } return a;]
    The loop runs while [b] is not zero, and [|a % b| < |b|] bounds it. *)

Equations? gcd (a b : Z) : Z by wf (Z.abs_nat b) lt :=
  gcd a b with Z.eq_dec b 0 := {
    | left _ => a
    | right _ => gcd b (Z.rem a b) }.
Proof.
  pose proof (Z.rem_bound_abs a b). lia.
Qed.

(** ** Fractions *)

Record Fraction : Set := { num : Z; den : Z }.

(** [Fraction(const T& numerator, const T& denominator)] *)
Definition Fraction_new (numerator denominator : Z) : result Fraction :=
  if negb (denominator =? 0)
  then Ok {| num := numerator; den := denominator |}
  else Err DomainError.

(** [Fraction<T> reduce() const]: builds the result with the constructor. *)
Definition reduce (f : Fraction) : result Fraction :=
  let div_ := gcd (num f) (den f) in
  n <- div (num f) div_ ;;
  d <- div (den f) div_ ;;
  Fraction_new n d.

(** [void reduce()]: the fraction after the two compound assignments. *)
Definition reduce_in_place (f : Fraction) : result Fraction :=
  let div_ := gcd (num f) (den f) in
  n <- div (num f) div_ ;;
  d <- div (den f) div_ ;;
  Ok {| num := n; den := d |}.

(** ** Orientation and containment predicates *)

Definition sgn (value : Z) : Z :=
  Z.b2z (0 <? value) - Z.b2z (value <? 0).

(** Determine on which side of line seg given point is *)
Definition side (seg : seg_t Z) (point : pos_t Z) : result Z :=
  matrix <- Matrix3x3_init
    [ x (fst seg); y (fst seg); 1;
      x (snd seg); y (snd seg); 1;
      x point;     y point;     1 ] ;;
  Ok (sgn (det3 matrix)).

(** Determine whether both points lie on the same side of line seg *)
Definition same_side (seg : seg_t Z) (point1 point2 : pos_t Z) : result bool :=
  s1 <- side seg point1 ;;
  s2 <- side seg point2 ;;
  Ok (s1 =? s2).

(** Determine whether segment seg contains given point.

    [min <= v <= max] is the C++ expression [(min <= v) <= max]: the
    outcome of the first comparison, converted to [T] (0 or 1), is what the
    second comparison sees. *)
Definition seg_contains (seg : seg_t Z) (point : pos_t Z) : result bool :=
  s <- side seg point ;;
  Ok ((s =? 0)
      && (Z.b2z (Z.min (x (fst seg)) (x (snd seg)) <=? x point)
            <=? Z.max (x (fst seg)) (x (snd seg)))
      && (Z.b2z (Z.min (y (fst seg)) (y (snd seg)) <=? y point)
            <=? Z.max (y (fst seg)) (y (snd seg)))).

(** Determine whether given segments intersect *)
Definition seg_intersects (seg1 seg2 : seg_t Z) : result bool :=
  or_else
    (or_else
      (or_else
        (or_else
          (and_then (not_ (same_side seg1 (fst seg2) (snd seg2)))
                    (not_ (same_side seg2 (fst seg1) (snd seg1))))
          (seg_contains seg1 (fst seg2)))
        (seg_contains seg1 (snd seg2)))
      (seg_contains seg2 (fst seg1)))
    (seg_contains seg2 (snd seg1)).

(** Calculate the exact intersection point of given lines *)
Definition seg_intersection (seg1 seg2 : seg_t Z)
  : result (option (pos_t Fraction)) :=
  den_ <- Matrix2x2_init
    [ x (fst seg1) - x (snd seg1); y (fst seg1) - y (snd seg1);
      x (fst seg2) - x (snd seg2); y (fst seg2) - y (snd seg2) ] ;;
  (* determinant of the denominator *)
  let den_det := det2 den_ in
  (* parallel lines *)
  if den_det =? 0 then Ok None else
  m1 <- Matrix2x2_init
    [ x (fst seg1); y (fst seg1);
      x (snd seg1); y (snd seg1) ] ;;
  m2 <- Matrix2x2_init
    [ x (fst seg2); y (fst seg2);
      x (snd seg2); y (snd seg2) ] ;;
  xnum <- Matrix2x2_init
    [ det2 m1; x (fst seg1) - x (snd seg1);
      det2 m2; x (fst seg2) - x (snd seg2) ] ;;
  ynum <- Matrix2x2_init
    [ det2 m1; y (fst seg1) - y (snd seg1);
      det2 m2; y (fst seg2) - y (snd seg2) ] ;;
  frac_x <- Fraction_new (det2 xnum) den_det ;;
  frac_y <- Fraction_new (det2 ynum) den_det ;;
  frac_x' <- reduce_in_place frac_x ;;
  frac_y' <- reduce_in_place frac_y ;;
  Ok (Some (mkPoint frac_x' frac_y')).

(** ** Closed forms

    The values the functions above compute, written without matrices and
    without the monad; the lemmas [side_eq], [seg_contains_eq],
    [seg_intersection_eq], [reduce_ok] and [reduce_in_place_ok] relate
    them to the code. *)

(** Determinant of the matrix with rows [r0], [r1], [r2], expanded along
    the first row. *)
Definition det_rows (r0 r1 r2 : Z * Z * Z) : Z :=
  let '(a, b, c) := r0 in
  let '(d, e, f) := r1 in
  let '(g, h, i) := r2 in
  a * (e * i - f * h) - b * (d * i - f * g) + c * (d * h - e * g).

(** The values [side] and [seg_contains] return, without the monad. *)
Definition side_value (seg : seg_t Z) (p : pos_t Z) : Z :=
  sgn (det_rows (x (fst seg), y (fst seg), 1)
                (x (snd seg), y (snd seg), 1)
                (x p, y p, 1)).

Definition seg_contains_value (seg : seg_t Z) (p : pos_t Z) : bool :=
  (side_value seg p =? 0)
  && (Z.b2z (Z.min (x (fst seg)) (x (snd seg)) <=? x p)
        <=? Z.max (x (fst seg)) (x (snd seg)))
  && (Z.b2z (Z.min (y (fst seg)) (y (snd seg)) <=? y p)
        <=? Z.max (y (fst seg)) (y (snd seg))).

(** The fraction both forms of [reduce] produce. *)
Definition reduced (f : Fraction) : Fraction :=
  {| num := Z.quot (num f) (gcd (num f) (den f));
     den := Z.quot (den f) (gcd (num f) (den f)) |}.

(** Determinant of the direction differences of two segments, the
    [den_det] of [seg_intersection]. *)
Definition den_det (seg1 seg2 : seg_t Z) : Z :=
  (x (fst seg1) - x (snd seg1)) * (y (fst seg2) - y (snd seg2))
  - (y (fst seg1) - y (snd seg1)) * (x (fst seg2) - x (snd seg2)).

(** Numerators of Cramer's rule for the two lines. *)
Definition x_num (seg1 seg2 : seg_t Z) : Z :=
  (x (fst seg1) * y (snd seg1) - y (fst seg1) * x (snd seg1))
    * (x (fst seg2) - x (snd seg2))
  - (x (fst seg1) - x (snd seg1))
    * (x (fst seg2) * y (snd seg2) - y (fst seg2) * x (snd seg2)).

Definition y_num (seg1 seg2 : seg_t Z) : Z :=
  (x (fst seg1) * y (snd seg1) - y (fst seg1) * x (snd seg1))
    * (y (fst seg2) - y (snd seg2))
  - (y (fst seg1) - y (snd seg1))
    * (x (fst seg2) * y (snd seg2) - y (fst seg2) * x (snd seg2)).

(** Direction of a segment, as the difference the code takes. *)
Definition direction (seg : seg_t Z) : Z * Z :=
  (x (fst seg) - x (snd seg), y (fst seg) - y (snd seg)).

(** ** Reference notions

    The geometric and arithmetic notions the properties are stated with.
    They do not come from the code: each one writes out the meaning of a
    phrase of the documentation, to be compared with what the code
    computes. *)

(** The point [p] is on the line [a*X + b*Y + c = 0]. *)
Definition on_line_eq (a b c : Z) (p : pos_t Z) : Prop :=
  a * x p + b * y p + c = 0.

(** Three points are collinear when one line holds them all. *)
Definition collinear (A B P : pos_t Z) : Prop :=
  exists a b c : Z,
    (a <> 0 \/ b <> 0) /\
    on_line_eq a b c A /\ on_line_eq a b c B /\ on_line_eq a b c P.






(** Axis-aligned bounding box of a segment, as two-sided interval
    memberships. *)
Definition in_bbox (seg : seg_t Z) (p : pos_t Z) : Prop :=
  Z.min (x (fst seg)) (x (snd seg)) <= x p <= Z.max (x (fst seg)) (x (snd seg))
  /\ Z.min (y (fst seg)) (y (snd seg)) <= y p <= Z.max (y (fst seg)) (y (snd seg)).

Definition strictly_outside_bbox (seg : seg_t Z) (p : pos_t Z) : Prop :=
  x p < Z.min (x (fst seg)) (x (snd seg))
  \/ Z.max (x (fst seg)) (x (snd seg)) < x p
  \/ y p < Z.min (y (fst seg)) (y (snd seg))
  \/ Z.max (y (fst seg)) (y (snd seg)) < y p.

(** Segment containment as documented: collinear and inside the box. *)
Definition seg_contains_spec (seg : seg_t Z) (p : pos_t Z) : Prop :=
  side seg p = Ok 0 /\ in_bbox seg p.

(** [p] and [q] are strictly on opposite sides of the line of [seg]. *)
Definition opposite_sides (seg : seg_t Z) (p q : pos_t Z) : Prop :=
  (side seg p = Ok (-1) /\ side seg q = Ok 1)
  \/ (side seg p = Ok 1 /\ side seg q = Ok (-1)).

(** Segment intersection as documented. *)
Definition seg_intersects_spec (seg1 seg2 : seg_t Z) : Prop :=
  (opposite_sides seg1 (fst seg2) (snd seg2)
   /\ opposite_sides seg2 (fst seg1) (snd seg1))
  \/ seg_contains_spec seg1 (fst seg2) \/ seg_contains_spec seg1 (snd seg2)
  \/ seg_contains_spec seg2 (fst seg1) \/ seg_contains_spec seg2 (snd seg1).

(** Two vectors are linearly dependent when a non-trivial combination of
    them vanishes. *)
Definition linearly_dependent (u v : Z * Z) : Prop :=
  exists s t : Z,
    (s <> 0 \/ t <> 0)
    /\ s * fst u + t * fst v = 0 /\ s * snd u + t * snd v = 0.

(** A fraction read as an exact rational. *)
Definition to_Q (f : Fraction) : Q :=
  (inject_Z (num f) / inject_Z (den f))%Q.

(** The rational point [(qx, qy)] satisfies the equation of the line
    through the endpoints of [seg]. *)
Definition on_line (seg : seg_t Z) (qx qy : Q) : Prop :=
  ((inject_Z (x (snd seg)) - inject_Z (x (fst seg)))
     * (qy - inject_Z (y (fst seg)))
   - (inject_Z (y (snd seg)) - inject_Z (y (fst seg)))
     * (qx - inject_Z (x (fst seg)))
   == 0)%Q.

(** ** Writing through [operator[]]

    The non-const [operator[]] returns a reference to
    [vals[ix.second * N + ix.first]]; [matrix[ix] = v] is the matrix with
    that cell replaced.  A position outside the array has no defined
    behaviour and gives no matrix. *)

Definition replace_nth (i : nat) (v : Z) (l : list Z) : list Z :=
  firstn i l ++ v :: skipn (S i) l.

Definition Matrix3x3_set (m : Matrix3x3) (ix : nat * nat) (v : Z)
  : option Matrix3x3 :=
  let i := (snd ix * 3 + fst ix)%nat in
  if Nat.ltb i (length (vals3 m))
  then Some {| vals3 := replace_nth i v (vals3 m) |}
  else None.

Definition Matrix2x2_set (m : Matrix2x2) (ix : nat * nat) (v : Z)
  : option Matrix2x2 :=
  let i := (snd ix * 2 + fst ix)%nat in
  if Nat.ltb i (length (vals2 m))
  then Some {| vals2 := replace_nth i v (vals2 m) |}
  else None.

(** The rational point [(qx, qy)] is strictly inside [seg]: it is
    [A + t (B - A)] for some [t] strictly between 0 and 1. *)
Definition strictly_inside (seg : seg_t Z) (qx qy : Q) : Prop :=
  exists t : Q,
    (0 < t /\ t < 1
     /\ qx == inject_Z (x (fst seg))
              + t * (inject_Z (x (snd seg)) - inject_Z (x (fst seg)))
     /\ qy == inject_Z (y (fst seg))
              + t * (inject_Z (y (snd seg)) - inject_Z (y (fst seg))))%Q.

(** ** Stream output

    An output stream is modelled by the characters written to it so far.
    [show] stands for [operator<<] of the coordinate type: the characters
    it writes for a value. *)

Section Printing.

Variable T : Type.
Variable show : T -> list ascii.

(** [os << '(' << point.x << ';' << point.y << ')'] *)
Definition Point_print (os : list ascii) (point : Point T) : list ascii :=
  ((((os ++ ["("%char]) ++ show (x point)) ++ [";"%char])
     ++ show (y point)) ++ [")"%char].

End Printing.

Arguments Point_print {T} show os point.

(** [os << frac.num << '/' << frac.den] *)
Definition Fraction_print (show : Z -> list ascii)
  (os : list ascii) (frac : Fraction) : list ascii :=
  ((os ++ show (num frac)) ++ ["/"%char]) ++ show (den frac).

(** What [operator<<] writes for an integer with the default formatting:
    its decimal digits, after a minus sign when it is negative. *)
Definition show_Z (z : Z) : list ascii :=
  String.list_ascii_of_string
    (DecimalString.NilZero.string_of_int (Z.to_int z)).

(** The characters of a decimal numeral. *)
Definition decimal_char (c : ascii) : Prop :=
  In c ["-"; "0"; "1"; "2"; "3"; "4"; "5"; "6"; "7"; "8"; "9"]%char.

(** * Properties *)

(** ** The documented examples *)

Example gcd_12_18 : gcd 12 18 = 6.
Proof. reflexivity. Qed.

Example gcd_negative : gcd (-8) (-8) = -8 /\ gcd 6 (-4) = 2 /\ gcd (-6) 4 = -2.
Proof. repeat split. Qed.

Example seg_intersection_parallel_example :
  seg_intersection (mkPoint 0 0, mkPoint 1 0) (mkPoint 0 1, mkPoint 1 1)
  = Ok None.
Proof. reflexivity. Qed.

Example seg_intersects_crossing :
  seg_intersects (mkPoint 0 0, mkPoint 2 2) (mkPoint 2 0, mkPoint 0 2)
  = Ok true.
Proof. reflexivity. Qed.

Example seg_intersects_parallel_disjoint :
  seg_intersects (mkPoint 0 0, mkPoint 1 0) (mkPoint 0 1, mkPoint 1 1)
  = Ok false.
Proof. reflexivity. Qed.

Example seg_intersects_touching :
  seg_intersects (mkPoint 0 0, mkPoint 1 1) (mkPoint 1 1, mkPoint 2 0)
  = Ok true.
Proof. reflexivity. Qed.

Example Matrix3x3_init_short :
  Matrix3x3_init [1; 2; 3] = Err AssertionFailed.
Proof. reflexivity. Qed.

(** ** The Euclidean loop *)

Lemma gcd_0_r a : gcd a 0 = a.
Proof. simp gcd. destruct (Z.eq_dec 0 0); [reflexivity | congruence]. Qed.

Lemma gcd_step a b : b <> 0 -> gcd a b = gcd b (Z.rem a b).
Proof.
  intros Hb. rewrite gcd_equation_1.
  destruct (Z.eq_dec b 0); [contradiction | reflexivity].
Qed.

(** Up to sign, the loop computes the mathematical gcd. *)
Lemma gcd_abs a b : Z.abs (gcd a b) = Z.gcd a b.
Proof.
  funelim (gcd a b).
  - subst b. now rewrite Z.gcd_0_r.
  - match goal with IH : Z.abs _ = Z.gcd _ _ |- _ => rewrite IH end.
    rewrite Z.gcd_comm, Z.gcd_rem by assumption. apply Z.gcd_comm.
Qed.

Lemma gcd_nonzero a b : b <> 0 -> gcd a b <> 0.
Proof.
  intros Hb Hg. pose proof (gcd_abs a b) as Habs.
  rewrite Hg in Habs. simpl in Habs. symmetry in Habs.
  apply Z.gcd_eq_0_r in Habs. contradiction.
Qed.

Lemma gcd_divide_l a b : (gcd a b | a).
Proof.
  apply Z.divide_abs_l. rewrite gcd_abs. apply Z.gcd_divide_l.
Qed.

Lemma gcd_divide_r a b : (gcd a b | b).
Proof.
  apply Z.divide_abs_l. rewrite gcd_abs. apply Z.gcd_divide_r.
Qed.

(** Dividing by a common divisor [g] that is a gcd up to sign leaves
    coprime quotients. *)
Lemma quot_gcd_coprime a b g :
  g <> 0 -> Z.abs g = Z.gcd a b -> Z.gcd (Z.quot a g) (Z.quot b g) = 1.
Proof.
  intros Hg Habs.
  destruct (Z.abs_eq_or_opp g) as [E | E]; rewrite E in Habs.
  - apply Z.gcd_quot_gcd; auto.
  - assert (Hg' : - g <> 0) by lia.
    pose proof (Z.gcd_quot_gcd a b (- g) Hg' Habs) as H.
    rewrite !Z.quot_opp_r, Z.gcd_opp_l, Z.gcd_opp_r in H by assumption.
    exact H.
Qed.

(** ** Fractions *)

Lemma Fraction_new_ok n d :
  d <> 0 -> Fraction_new n d = Ok {| num := n; den := d |}.
Proof.
  intros Hd. unfold Fraction_new.
  destruct (Z.eqb_spec d 0); [contradiction | reflexivity].
Qed.

Lemma div_ok a b : b <> 0 -> div a b = Ok (Z.quot a b).
Proof.
  intros Hb. unfold div. destruct (Z.eqb_spec b 0); [contradiction | reflexivity].
Qed.

Lemma reduced_den_nonzero f : den f <> 0 -> den (reduced f) <> 0.
Proof.
  intros Hd. simpl.
  pose proof (gcd_nonzero (num f) (den f) Hd) as Hg.
  destruct (gcd_divide_r (num f) (den f)) as [k Hk].
  intros H0. rewrite Hk in H0 at 1.
  rewrite Z.quot_mul in H0 by assumption. subst k. lia.
Qed.

Lemma reduce_in_place_ok f :
  den f <> 0 -> reduce_in_place f = Ok (reduced f).
Proof.
  intros Hd. unfold reduce_in_place.
  rewrite !div_ok by (apply gcd_nonzero; assumption). reflexivity.
Qed.

Lemma reduce_ok f : den f <> 0 -> reduce f = Ok (reduced f).
Proof.
  intros Hd. unfold reduce.
  rewrite !div_ok by (apply gcd_nonzero; assumption). simpl.
  apply Fraction_new_ok. exact (reduced_den_nonzero f Hd).
Qed.

Lemma reduced_cross f :
  den f <> 0 -> num (reduced f) * den f = num f * den (reduced f).
Proof.
  destruct f as [n d]. simpl. intros Hd.
  pose proof (gcd_nonzero n d Hd) as Hg.
  destruct (gcd_divide_l n d) as [k Hk].
  destruct (gcd_divide_r n d) as [l Hl].
  remember (gcd n d) as g eqn:Eg.
  assert (En : Z.quot n g = k) by (rewrite Hk; apply Z.quot_mul; assumption).
  assert (Ed : Z.quot d g = l) by (rewrite Hl; apply Z.quot_mul; assumption).
  rewrite En, Ed, Hk, Hl. ring.
Qed.

Lemma reduced_lowest_terms f :
  den f <> 0 -> Z.gcd (num (reduced f)) (den (reduced f)) = 1.
Proof.
  intros Hd. simpl. apply quot_gcd_coprime.
  - apply gcd_nonzero; assumption.
  - apply gcd_abs.
Qed.

(** ** Orientation *)

(** Runs the matrix constructors and element accesses of a goal. *)
Ltac eval_matrix :=
  unfold Matrix3x3_init, Matrix2x2_init, det3, det2, at3, at2;
  cbn [bind length Nat.eqb nth vals3 vals2 fst snd Nat.mul Nat.add].

Lemma sgn_cases v :
  (v < 0 /\ sgn v = -1) \/ (v = 0 /\ sgn v = 0) \/ (0 < v /\ sgn v = 1).
Proof.
  unfold sgn.
  destruct (Z.ltb_spec 0 v), (Z.ltb_spec v 0); simpl; lia.
Qed.

(** The matrix [side] builds always has nine entries; its determinant is
    the one of the rows [A 1], [B 1], [P 1]. *)
Lemma side_eq (seg : seg_t Z) (p : pos_t Z) :
  side seg p =
  Ok (sgn (det_rows (x (fst seg), y (fst seg), 1)
                    (x (snd seg), y (snd seg), 1)
                    (x p, y p, 1))).
Proof.
  unfold side, det_rows. eval_matrix. do 2 f_equal. ring.
Qed.

(** The same determinant as the cross product of [B - A] and [P - A]. *)
Lemma det_rows_cross (A B P : pos_t Z) :
  det_rows (x A, y A, 1) (x B, y B, 1) (x P, y P, 1)
  = (x B - x A) * (y P - y A) - (y B - y A) * (x P - x A).
Proof. unfold det_rows. ring. Qed.

Lemma collinear_iff (A B P : pos_t Z) :
  collinear A B P
  <-> (x B - x A) * (y P - y A) - (y B - y A) * (x P - x A) = 0.
Proof.
  unfold collinear, on_line_eq. split.
  - intros (a & b & c & Hab & HA & HB & HP).
    assert (L1 : a * (x B - x A) + b * (y B - y A) = 0) by lia.
    assert (L2 : a * (x P - x A) + b * (y P - y A) = 0) by lia.
    set (c0 := (x B - x A) * (y P - y A) - (y B - y A) * (x P - x A)).
    assert (Ha : a * c0 = 0).
    { replace (a * c0) with
        ((y P - y A) * (a * (x B - x A) + b * (y B - y A))
         - (y B - y A) * (a * (x P - x A) + b * (y P - y A)))
        by (unfold c0; ring).
      rewrite L1, L2. ring. }
    assert (Hb : b * c0 = 0).
    { replace (b * c0) with
        ((x B - x A) * (a * (x P - x A) + b * (y P - y A))
         - (x P - x A) * (a * (x B - x A) + b * (y B - y A)))
        by (unfold c0; ring).
      rewrite L1, L2. ring. }
    apply Z.mul_eq_0 in Ha, Hb. tauto.
  - intros H.
    destruct (Z.eq_dec (x B) (x A)) as [Ex | Ex];
      [destruct (Z.eq_dec (y B) (y A)) as [Ey | Ey] |].
    + (* A = B: the line through A and P, or any line through A *)
      destruct (Z.eq_dec (x P) (x A)) as [Fx | Fx].
      * exists 1, 0, (- x A). repeat split; try lia.
      * exists (y P - y A), (- (x P - x A)), (- ((y P - y A) * x A - (x P - x A) * y A)).
        repeat split; try lia; try nia.
    + exists (y B - y A), (- (x B - x A)), (- ((y B - y A) * x A - (x B - x A) * y A)).
      repeat split; try lia; try nia.
    + exists (y B - y A), (- (x B - x A)), (- ((y B - y A) * x A - (x B - x A) * y A)).
      repeat split; try lia; try nia.
Qed.

Lemma side_values (seg : seg_t Z) (p : pos_t Z) :
  side seg p = Ok (-1) \/ side seg p = Ok 0 \/ side seg p = Ok 1.
Proof.
  rewrite side_eq.
  destruct (sgn_cases (det_rows (x (fst seg), y (fst seg), 1)
                                (x (snd seg), y (snd seg), 1)
                                (x p, y p, 1)))
    as [[_ ->] | [[_ ->] | [_ ->]]]; auto.
Qed.



(** ** Containment *)

(** What the chained comparison [lo <= v <= hi] accepts. *)
Lemma chained_le_true (lo v hi : Z) :
  (Z.b2z (lo <=? v) <=? hi) = true <-> 1 <= hi \/ (hi = 0 /\ v < lo).
Proof.
  destruct (Z.leb_spec lo v); cbn [Z.b2z];
    destruct (Z.leb_spec 1 hi), (Z.leb_spec 0 hi); split; intros; try lia;
    try discriminate.
Qed.

Lemma seg_contains_eq (seg : seg_t Z) (p : pos_t Z) :
  seg_contains seg p =
  Ok ((sgn (det_rows (x (fst seg), y (fst seg), 1)
                     (x (snd seg), y (snd seg), 1)
                     (x p, y p, 1)) =? 0)
      && (Z.b2z (Z.min (x (fst seg)) (x (snd seg)) <=? x p)
            <=? Z.max (x (fst seg)) (x (snd seg)))
      && (Z.b2z (Z.min (y (fst seg)) (y (snd seg)) <=? y p)
            <=? Z.max (y (fst seg)) (y (snd seg)))).
Proof. unfold seg_contains. rewrite side_eq. reflexivity. Qed.

(** The containment test answers by the position of the box, not of the
    point in it: on each axis the upper bound must be at least 1, or be 0
    with the point below the lower bound. *)
Lemma seg_contains_true (seg : seg_t Z) (p : pos_t Z) :
  seg_contains seg p = Ok true
  <-> side seg p = Ok 0
      /\ (1 <= Z.max (x (fst seg)) (x (snd seg))
          \/ (Z.max (x (fst seg)) (x (snd seg)) = 0
              /\ x p < Z.min (x (fst seg)) (x (snd seg))))
      /\ (1 <= Z.max (y (fst seg)) (y (snd seg))
          \/ (Z.max (y (fst seg)) (y (snd seg)) = 0
              /\ y p < Z.min (y (fst seg)) (y (snd seg)))).
Proof.
  rewrite seg_contains_eq, side_eq, <- !chained_le_true.
  remember (sgn _) as s eqn:Es. clear Es.
  destruct (Z.eqb_spec s 0) as [-> | Hs];
    destruct (_ <=? Z.max (x _) _), (_ <=? Z.max (y _) _); cbn [andb];
    split; intros H; try discriminate H; try tauto;
    destruct H as (H & Hx & Hy); congruence.
Qed.

(** The documented containment holds at both endpoints and fails
    strictly outside the box. *)
Lemma seg_contains_spec_endpoints (seg : seg_t Z) :
  seg_contains_spec seg (fst seg) /\ seg_contains_spec seg (snd seg).
Proof.
  unfold seg_contains_spec, in_bbox. rewrite !side_eq.
  assert (E1 : det_rows (x (fst seg), y (fst seg), 1)
                 (x (snd seg), y (snd seg), 1) (x (fst seg), y (fst seg), 1) = 0)
    by (unfold det_rows; ring).
  assert (E2 : det_rows (x (fst seg), y (fst seg), 1)
                 (x (snd seg), y (snd seg), 1) (x (snd seg), y (snd seg), 1) = 0)
    by (unfold det_rows; ring).
  rewrite E1, E2. repeat split; lia.
Qed.

Lemma seg_contains_spec_outside (seg : seg_t Z) (p : pos_t Z) :
  strictly_outside_bbox seg p -> ~ seg_contains_spec seg p.
Proof.
  unfold strictly_outside_bbox, seg_contains_spec, in_bbox. lia.
Qed.

(** C1. Containment is meant to be collinearity together with two-sided
    interval membership on both axes.  The code's chained comparison
    departs from it both ways: it accepts (5,5) on the segment from (0,0)
    to (2,2), which is outside the box, and it rejects the endpoint
    (-1,-1) of the segment from (-2,-2) to (-1,-1). *)
Theorem seg_contains_chained_comparison :
  (seg_contains (mkPoint 0 0, mkPoint 2 2) (mkPoint 5 5) = Ok true
   /\ ~ seg_contains_spec (mkPoint 0 0, mkPoint 2 2) (mkPoint 5 5))
  /\ (seg_contains (mkPoint (-2) (-2), mkPoint (-1) (-1)) (mkPoint (-1) (-1))
      = Ok false
      /\ seg_contains_spec (mkPoint (-2) (-2), mkPoint (-1) (-1))
           (mkPoint (-1) (-1))).
Proof.
  split; split; try reflexivity.
  - apply seg_contains_spec_outside. unfold strictly_outside_bbox.
    cbn [fst snd x y]. lia.
  - exact (proj2 (seg_contains_spec_endpoints
                    (mkPoint (-2) (-2), mkPoint (-1) (-1)))).
Qed.

(** C3. Both endpoints of a segment should be contained in it and no
    point strictly outside its box should be.  On the segment from (-2,-2)
    to (-1,-1) the code rejects both endpoints, and on the segment from
    (0,0) to (2,2) it accepts (5,5), which is strictly outside the box. *)
Theorem seg_contains_endpoints_outside :
  seg_contains (mkPoint (-2) (-2), mkPoint (-1) (-1)) (mkPoint (-2) (-2))
  = Ok false
  /\ seg_contains (mkPoint (-2) (-2), mkPoint (-1) (-1)) (mkPoint (-1) (-1))
     = Ok false
  /\ strictly_outside_bbox (mkPoint 0 0, mkPoint 2 2) (mkPoint 5 5)
  /\ seg_contains (mkPoint 0 0, mkPoint 2 2) (mkPoint 5 5) = Ok true.
Proof.
  repeat split; try reflexivity.
  unfold strictly_outside_bbox. cbn [fst snd x y]. lia.
Qed.

(** ** Values of the predicates *)

Lemma side_ok (seg : seg_t Z) (p : pos_t Z) :
  side seg p = Ok (side_value seg p).
Proof. apply side_eq. Qed.

Lemma same_side_ok (seg : seg_t Z) (p q : pos_t Z) :
  same_side seg p q = Ok (side_value seg p =? side_value seg q).
Proof. unfold same_side. rewrite !side_ok. reflexivity. Qed.

Lemma seg_contains_ok (seg : seg_t Z) (p : pos_t Z) :
  seg_contains seg p = Ok (seg_contains_value seg p).
Proof. apply seg_contains_eq. Qed.

Lemma seg_intersects_ok (seg1 seg2 : seg_t Z) :
  seg_intersects seg1 seg2 =
  Ok (negb (side_value seg1 (fst seg2) =? side_value seg1 (snd seg2))
      && negb (side_value seg2 (fst seg1) =? side_value seg2 (snd seg1))
      || seg_contains_value seg1 (fst seg2)
      || seg_contains_value seg1 (snd seg2)
      || seg_contains_value seg2 (fst seg1)
      || seg_contains_value seg2 (snd seg1)).
Proof.
  unfold seg_intersects. rewrite !same_side_ok, !seg_contains_ok.
  unfold or_else, and_then, not_. cbn [bind].
  destruct (side_value seg1 (fst seg2) =? side_value seg1 (snd seg2)),
           (side_value seg2 (fst seg1) =? side_value seg2 (snd seg1)),
           (seg_contains_value seg1 (fst seg2)),
           (seg_contains_value seg1 (snd seg2)),
           (seg_contains_value seg2 (fst seg1)),
           (seg_contains_value seg2 (snd seg1)); reflexivity.
Qed.

(** ** Intersection test *)

Lemma sgn_opp v : sgn (- v) = - sgn v.
Proof.
  destruct (sgn_cases v) as [[H ->] | [[H ->] | [H ->]]];
    destruct (sgn_cases (- v)) as [[H' ->] | [[H' ->] | [H' ->]]]; lia.
Qed.

(** [side] is antisymmetric in the direction of the segment. *)
Lemma side_value_swap (A B P : pos_t Z) :
  side_value (B, A) P = - side_value (A, B) P.
Proof.
  unfold side_value. cbn [fst snd]. rewrite <- sgn_opp. f_equal.
  unfold det_rows. ring.
Qed.

Lemma side_value_zero (A B P : pos_t Z) :
  side_value (A, B) P = 0
  <-> (x B - x A) * (y P - y A) - (y B - y A) * (x P - x A) = 0.
Proof.
  unfold side_value. cbn [fst snd]. rewrite det_rows_cross.
  destruct (sgn_cases ((x B - x A) * (y P - y A) - (y B - y A) * (x P - x A)))
    as [[H ->] | [[H ->] | [H ->]]]; lia.
Qed.

(** A vector [w] parallel to [u] whose cross products with [e] change
    sign between [w] and [w - u] lies between 0 and [u]. *)
Lemma between_axis (u1 u2 w1 w2 e1 e2 : Z) :
  u1 * w2 = u2 * w1 ->
  u1 * e2 - u2 * e1 <> 0 ->
  ~ (0 < w1 * e2 - w2 * e1
     /\ 0 < (w1 * e2 - w2 * e1) - (u1 * e2 - u2 * e1)) ->
  ~ (w1 * e2 - w2 * e1 < 0
     /\ (w1 * e2 - w2 * e1) - (u1 * e2 - u2 * e1) < 0) ->
  Z.min 0 u1 <= w1 <= Z.max 0 u1.
Proof.
  intros Hpar Hk Hpos Hneg.
  assert (Hz : u1 * w2 - u2 * w1 = 0) by lia.
  set (k := u1 * e2 - u2 * e1) in *.
  set (p := w1 * e2 - w2 * e1) in *.
  assert (F1 : u1 * p = w1 * k).
  { assert (E : u1 * p - w1 * k = - e1 * (u1 * w2 - u2 * w1))
      by (unfold p, k; ring).
    rewrite Hz in E. lia. }
  assert (F2 : u1 * (p - k) = (w1 - u1) * k) by lia.
  clearbody p k. clear Hpar Hz.
  destruct (Z.lt_trichotomy u1 0) as [H | [H | H]];
    destruct (Z.lt_trichotomy k 0) as [H' | [H' | H']]; try lia;
    destruct (Z.lt_trichotomy p 0) as [H2 | [H2 | H2]];
    destruct (Z.lt_trichotomy (p - k) 0) as [H3 | [H3 | H3]];
    try lia; nia.
Qed.

(** If [C] is on the line [AB], [D] is not, and [A], [B] are not on the
    same side of [CD], then [C] is in the box of [AB]. *)
Lemma on_line_between (A B C D : pos_t Z) :
  side_value (A, B) C = 0 ->
  side_value (A, B) D <> 0 ->
  side_value (C, D) A <> side_value (C, D) B ->
  in_bbox (A, B) C.
Proof.
  rewrite !side_value_zero. unfold side_value. cbn [fst snd].
  rewrite !det_rows_cross.
  set (u1 := x B - x A). set (u2 := y B - y A).
  set (w1 := x C - x A). set (w2 := y C - y A).
  set (e1 := x D - x C). set (e2 := y D - y C).
  replace (x D - x A) with (w1 + e1) by (unfold w1, e1; ring).
  replace (y D - y A) with (w2 + e2) by (unfold w2, e2; ring).
  replace (x A - x C) with (- w1) by (unfold w1; ring).
  replace (y A - y C) with (- w2) by (unfold w2; ring).
  replace (x B - x C) with (u1 - w1) by (unfold u1, w1; ring).
  replace (y B - y C) with (u2 - w2) by (unfold u2, w2; ring).
  intros Hc Hd Hs.
  assert (Hk : u1 * e2 - u2 * e1 <> 0) by lia.
  assert (Hp : e1 * - w2 - e2 * - w1 = w1 * e2 - w2 * e1) by ring.
  assert (Hq : e1 * (u2 - w2) - e2 * (u1 - w1)
               = (w1 * e2 - w2 * e1) - (u1 * e2 - u2 * e1)) by ring.
  rewrite Hp, Hq in Hs.
  assert (Hpos : ~ (0 < w1 * e2 - w2 * e1
                    /\ 0 < (w1 * e2 - w2 * e1) - (u1 * e2 - u2 * e1))).
  { intros [G1 G2]. apply Hs.
    destruct (sgn_cases (w1 * e2 - w2 * e1)) as [[? ->] | [[? ->] | [? ->]]];
      destruct (sgn_cases ((w1 * e2 - w2 * e1) - (u1 * e2 - u2 * e1)))
        as [[? ->] | [[? ->] | [? ->]]]; lia. }
  assert (Hneg : ~ (w1 * e2 - w2 * e1 < 0
                    /\ (w1 * e2 - w2 * e1) - (u1 * e2 - u2 * e1) < 0)).
  { intros [G1 G2]. apply Hs.
    destruct (sgn_cases (w1 * e2 - w2 * e1)) as [[? ->] | [[? ->] | [? ->]]];
      destruct (sgn_cases ((w1 * e2 - w2 * e1) - (u1 * e2 - u2 * e1)))
        as [[? ->] | [[? ->] | [? ->]]]; lia. }
  pose proof (between_axis u1 u2 w1 w2 e1 e2 ltac:(lia) Hk Hpos Hneg) as Bx.
  pose proof (between_axis u2 u1 w2 w1 e2 e1 ltac:(lia) ltac:(lia)
                ltac:(lia) ltac:(lia)) as By.
  unfold in_bbox. cbn [fst snd]. unfold u1, u2, w1, w2 in Bx, By. lia.
Qed.

Lemma side_value_range (seg : seg_t Z) (p : pos_t Z) :
  side_value seg p = -1 \/ side_value seg p = 0 \/ side_value seg p = 1.
Proof.
  unfold side_value.
  destruct (sgn_cases (det_rows (x (fst seg), y (fst seg), 1)
                                (x (snd seg), y (snd seg), 1)
                                (x p, y p, 1)))
    as [[_ ->] | [[_ ->] | [_ ->]]]; auto.
Qed.

Lemma opposite_sides_iff (seg : seg_t Z) (p q : pos_t Z) :
  opposite_sides seg p q
  <-> side_value seg p <> side_value seg q
      /\ side_value seg p <> 0 /\ side_value seg q <> 0.
Proof.
  unfold opposite_sides. rewrite !side_ok.
  pose proof (side_value_range seg p) as Hp.
  pose proof (side_value_range seg q) as Hq.
  split.
  - intros [[E1 E2] | [E1 E2]]; injection E1 as E1; injection E2 as E2; lia.
  - intros (Hne & H1 & H2).
    destruct Hp as [Hp | [Hp | Hp]], Hq as [Hq | [Hq | Hq]];
      rewrite Hp, Hq in *; try lia; auto.
Qed.

(** The documented intersection does not depend on reading "opposite
    sides" strictly: with the documented containment, "not on the same
    side" gives the same answer, since a point on the other line is then
    an endpoint on the other segment. *)
Lemma seg_intersects_spec_sides (seg1 seg2 : seg_t Z) :
  seg_intersects_spec seg1 seg2
  <-> (side_value seg1 (fst seg2) <> side_value seg1 (snd seg2)
       /\ side_value seg2 (fst seg1) <> side_value seg2 (snd seg1))
      \/ seg_contains_spec seg1 (fst seg2) \/ seg_contains_spec seg1 (snd seg2)
      \/ seg_contains_spec seg2 (fst seg1) \/ seg_contains_spec seg2 (snd seg1).
Proof.
  destruct seg1 as [A B], seg2 as [C D].
  unfold seg_intersects_spec. cbn [fst snd]. rewrite !opposite_sides_iff.
  split; [tauto |].
  intros [[H1 H2] | H]; [| tauto].
  unfold seg_contains_spec. rewrite !side_ok.
  destruct (Z.eq_dec (side_value (A, B) C) 0) as [E1 | E1].
  { right; left. split; [now rewrite E1 |].
    apply (on_line_between A B C D); [assumption | lia | assumption]. }
  destruct (Z.eq_dec (side_value (A, B) D) 0) as [E2 | E2].
  { right; right; left. split; [now rewrite E2 |].
    apply (on_line_between A B D C); [assumption | lia |].
    rewrite !(side_value_swap C D). lia. }
  destruct (Z.eq_dec (side_value (C, D) A) 0) as [E3 | E3].
  { right; right; right; left. split; [now rewrite E3 |].
    apply (on_line_between C D A B); [assumption | lia | assumption]. }
  destruct (Z.eq_dec (side_value (C, D) B) 0) as [E4 | E4].
  { right; right; right; right. split; [now rewrite E4 |].
    apply (on_line_between C D B A); [assumption | lia |].
    rewrite !(side_value_swap A B). lia. }
  left. tauto.
Qed.

(** Wherever the four containment tests of a call answer as documented,
    [seg_intersects] answers as documented. *)
Lemma seg_intersects_correct_if (seg1 seg2 : seg_t Z) :
  (seg_contains seg1 (fst seg2) = Ok true <-> seg_contains_spec seg1 (fst seg2)) ->
  (seg_contains seg1 (snd seg2) = Ok true <-> seg_contains_spec seg1 (snd seg2)) ->
  (seg_contains seg2 (fst seg1) = Ok true <-> seg_contains_spec seg2 (fst seg1)) ->
  (seg_contains seg2 (snd seg1) = Ok true <-> seg_contains_spec seg2 (snd seg1)) ->
  (seg_intersects seg1 seg2 = Ok true <-> seg_intersects_spec seg1 seg2).
Proof.
  rewrite !seg_contains_ok, seg_intersects_ok, seg_intersects_spec_sides.
  intros H1 H2 H3 H4. rewrite <- H1, <- H2, <- H3, <- H4.
  destruct (Z.eqb_spec (side_value seg1 (fst seg2)) (side_value seg1 (snd seg2))),
           (Z.eqb_spec (side_value seg2 (fst seg1)) (side_value seg2 (snd seg1))),
           (seg_contains_value seg1 (fst seg2)),
           (seg_contains_value seg1 (snd seg2)),
           (seg_contains_value seg2 (fst seg1)),
           (seg_contains_value seg2 (snd seg1));
    cbn [negb andb orb]; split; intros H; auto 10;
    try (destruct H as [[? ?] | [H | [H | [H | H]]]];
         try contradiction; discriminate H).
Qed.

(** C2. Two segments should intersect exactly when they cross properly or
    an endpoint of one lies on the other.  The collinear, disjoint
    segments (0,0)-(1,1) and (2,2)-(3,3) do neither, and the code reports
    an intersection: its containment test accepts (2,2) on (0,0)-(1,1). *)
Theorem seg_intersects_collinear_disjoint :
  seg_intersects (mkPoint 0 0, mkPoint 1 1) (mkPoint 2 2, mkPoint 3 3)
  = Ok true
  /\ seg_contains (mkPoint 0 0, mkPoint 1 1) (mkPoint 2 2) = Ok true
  /\ ~ seg_intersects_spec
         (mkPoint 0 0, mkPoint 1 1) (mkPoint 2 2, mkPoint 3 3).
Proof.
  split; [reflexivity |]. split; [reflexivity |].
  unfold seg_intersects_spec, opposite_sides, seg_contains_spec, in_bbox.
  cbn [fst snd x y].
  intros [[[[H _] | [H _]] _] | [[_ H] | [[_ H] | [[_ H] | [_ H]]]]];
    try discriminate H; lia.
Qed.

(** ** Intersection point *)

Lemma Matrix2x2_init_four (a b c d : Z) :
  Matrix2x2_init [a; b; c; d] = Ok {| vals2 := [a; b; c; d] |}.
Proof. reflexivity. Qed.

Lemma det2_four (a b c d : Z) :
  det2 {| vals2 := [a; b; c; d] |} = a * d - b * c.
Proof. reflexivity. Qed.

Lemma seg_intersection_eq (seg1 seg2 : seg_t Z) :
  seg_intersection seg1 seg2 =
  if den_det seg1 seg2 =? 0 then Ok None else
    frac_x <- Fraction_new (x_num seg1 seg2) (den_det seg1 seg2) ;;
    frac_y <- Fraction_new (y_num seg1 seg2) (den_det seg1 seg2) ;;
    frac_x' <- reduce_in_place frac_x ;;
    frac_y' <- reduce_in_place frac_y ;;
    Ok (Some (mkPoint frac_x' frac_y')).
Proof.
  unfold seg_intersection.
  repeat (rewrite Matrix2x2_init_four; cbn [bind]).
  rewrite !det2_four. reflexivity.
Qed.

Lemma seg_intersection_parallel (seg1 seg2 : seg_t Z) :
  den_det seg1 seg2 = 0 -> seg_intersection seg1 seg2 = Ok None.
Proof.
  intros H. rewrite seg_intersection_eq, H. reflexivity.
Qed.

Lemma seg_intersection_some (seg1 seg2 : seg_t Z) :
  den_det seg1 seg2 <> 0 ->
  seg_intersection seg1 seg2 =
  Ok (Some (mkPoint
    (reduced {| num := x_num seg1 seg2; den := den_det seg1 seg2 |})
    (reduced {| num := y_num seg1 seg2; den := den_det seg1 seg2 |}))).
Proof.
  intros H. rewrite seg_intersection_eq.
  destruct (Z.eqb_spec (den_det seg1 seg2) 0); [contradiction |].
  rewrite !Fraction_new_ok by assumption. cbn [bind].
  rewrite !reduce_in_place_ok by assumption. reflexivity.
Qed.

Lemma den_det_dependent (seg1 seg2 : seg_t Z) :
  den_det seg1 seg2 = 0
  <-> linearly_dependent (direction seg1) (direction seg2).
Proof.
  unfold den_det, linearly_dependent, direction. cbn [fst snd].
  set (u1 := x (fst seg1) - x (snd seg1)).
  set (u2 := y (fst seg1) - y (snd seg1)).
  set (v1 := x (fst seg2) - x (snd seg2)).
  set (v2 := y (fst seg2) - y (snd seg2)).
  split.
  - intros H.
    destruct (Z.eq_dec v1 0) as [E1 | E1];
      [destruct (Z.eq_dec u1 0) as [E2 | E2] |].
    + destruct (Z.eq_dec v2 0) as [E3 | E3];
        [destruct (Z.eq_dec u2 0) as [E4 | E4] |].
      * exists 1, 0. rewrite E2, E4. repeat split; lia.
      * exists v2, (- u2). rewrite E1, E2. repeat split; try lia; ring.
      * exists v2, (- u2). rewrite E1, E2. repeat split; try lia; ring.
    + exists v1, (- u1). repeat split; try lia; ring.
    + exists v1, (- u1). repeat split; try lia; ring.
  - intros (s & t & Hst & H1 & H2).
    assert (Hs : s * (u1 * v2 - u2 * v1) = 0).
    { replace (s * (u1 * v2 - u2 * v1))
        with (v2 * (s * u1 + t * v1) - v1 * (s * u2 + t * v2)) by ring.
      rewrite H1, H2. ring. }
    assert (Ht : t * (u1 * v2 - u2 * v1) = 0).
    { replace (t * (u1 * v2 - u2 * v1))
        with (u1 * (s * u2 + t * v2) - u2 * (s * u1 + t * v1)) by ring.
      rewrite H1, H2. ring. }
    apply Z.mul_eq_0 in Hs, Ht. tauto.
Qed.

(** C5. [seg_intersection] returns the absent result exactly when
    [den_det] is zero, that is, exactly when the directions of the two
    segments are linearly dependent.  Coincident lines get no case of
    their own: when both endpoints of the second segment are collinear
    with the first segment, the result is absent as well. *)
Theorem seg_intersection_absent (seg1 seg2 : seg_t Z) :
  (seg_intersection seg1 seg2 = Ok None <-> den_det seg1 seg2 = 0)
  /\ (den_det seg1 seg2 = 0
      <-> linearly_dependent (direction seg1) (direction seg2))
  /\ (collinear (fst seg1) (snd seg1) (fst seg2) ->
      collinear (fst seg1) (snd seg1) (snd seg2) ->
      seg_intersection seg1 seg2 = Ok None).
Proof.
  split; [| split].
  - split; [| apply seg_intersection_parallel].
    intros H. destruct (Z.eq_dec (den_det seg1 seg2) 0) as [E | E]; [exact E |].
    rewrite seg_intersection_some in H by assumption. discriminate H.
  - apply den_det_dependent.
  - rewrite !collinear_iff. intros H1 H2.
    apply seg_intersection_parallel. unfold den_det. lia.
Qed.

Lemma seg_intersection_absent_witness :
  collinear (mkPoint 0 0) (mkPoint 1 1) (mkPoint 2 2)
  /\ collinear (mkPoint 0 0) (mkPoint 1 1) (mkPoint 3 3)
  /\ seg_intersection (mkPoint 0 0, mkPoint 1 1) (mkPoint 2 2, mkPoint 3 3)
     = Ok None.
Proof.
  assert (H1 : collinear (mkPoint 0 0) (mkPoint 1 1) (mkPoint 2 2))
    by (apply collinear_iff; reflexivity).
  assert (H2 : collinear (mkPoint 0 0) (mkPoint 1 1) (mkPoint 3 3))
    by (apply collinear_iff; reflexivity).
  split; [exact H1 |]. split; [exact H2 |].
  exact (proj2 (proj2 (seg_intersection_absent
                         (mkPoint 0 0, mkPoint 1 1) (mkPoint 2 2, mkPoint 3 3)))
           H1 H2).
Defined.

(** *** Cramer's rule over the rationals *)

Section Cramer.

Local Open Scope Q_scope.

Variables a1 a2 b1 b2 c1 c2 d1 d2 : Q.

Let D : Q := (a1 - b1) * (c2 - d2) - (a2 - b2) * (c1 - d1).
Let Xn : Q := (a1 * b2 - a2 * b1) * (c1 - d1) - (a1 - b1) * (c1 * d2 - c2 * d1).
Let Yn : Q := (a1 * b2 - a2 * b1) * (c2 - d2) - (a2 - b2) * (c1 * d2 - c2 * d1).

(** Equations of the line through [a], [b] and of the one through [c], [d]. *)
Let line1 (qx qy : Q) : Q := (b1 - a1) * (qy - a2) - (b2 - a2) * (qx - a1).
Let line2 (qx qy : Q) : Q := (d1 - c1) * (qy - c2) - (d2 - c2) * (qx - c1).

Lemma cramer_on_lines :
  ~ D == 0 -> line1 (Xn / D) (Yn / D) == 0 /\ line2 (Xn / D) (Yn / D) == 0.
Proof.
  intros HD. unfold line1, line2, Xn, Yn, D in *. split; field; exact HD.
Qed.

Lemma cramer_unique (qx qy : Q) :
  ~ D == 0 -> line1 qx qy == 0 -> line2 qx qy == 0 ->
  qx == Xn / D /\ qy == Yn / D.
Proof.
  intros HD H1 H2.
  assert (Hx : qx * D == Xn).
  { assert (E : qx * D - Xn
                == (d1 - c1) * line1 qx qy - (b1 - a1) * line2 qx qy)
      by (unfold D, Xn, line1, line2; ring).
    rewrite H1, H2 in E. rewrite <- (Qplus_0_r Xn).
    setoid_replace 0 with (qx * D - Xn) by (rewrite E; ring). ring. }
  assert (Hy : qy * D == Yn).
  { assert (E : qy * D - Yn
                == (d2 - c2) * line1 qx qy - (b2 - a2) * line2 qx qy)
      by (unfold D, Yn, line1, line2; ring).
    rewrite H1, H2 in E. rewrite <- (Qplus_0_r Yn).
    setoid_replace 0 with (qy * D - Yn) by (rewrite E; ring). ring. }
  split.
  - rewrite <- Hx. field. exact HD.
  - rewrite <- Hy. field. exact HD.
Qed.

End Cramer.

(** *** The fractions of the result as rationals *)

Lemma inject_Z_nonzero (z : Z) : z <> 0 -> ~ (inject_Z z == 0)%Q.
Proof. unfold Qeq. cbn. lia. Qed.

(** Reduction does not change the rational a fraction stands for. *)
Lemma to_Q_reduced (f : Fraction) :
  den f <> 0 -> (to_Q (reduced f) == to_Q f)%Q.
Proof.
  destruct f as [n d]. unfold to_Q, reduced. cbn [num den]. intros Hd.
  pose proof (gcd_nonzero n d Hd) as Hg.
  destruct (gcd_divide_l n d) as [k Hk].
  destruct (gcd_divide_r n d) as [l Hl].
  remember (gcd n d) as g eqn:Eg.
  assert (En : Z.quot n g = k) by (rewrite Hk; apply Z.quot_mul; assumption).
  assert (Ed : Z.quot d g = l) by (rewrite Hl; apply Z.quot_mul; assumption).
  assert (Hl0 : l <> 0) by (intros ->; lia).
  rewrite En, Ed, Hk, Hl, !inject_Z_mult.
  field. split; apply inject_Z_nonzero; assumption.
Qed.

(** Pushes [inject_Z] to the coordinates. *)
Ltac push_inject_Z :=
  unfold Z.sub;
  repeat (rewrite inject_Z_plus || rewrite inject_Z_mult || rewrite inject_Z_opp).

Lemma on_line_cramer (seg1 seg2 : seg_t Z) :
  den_det seg1 seg2 <> 0 ->
  let X := (inject_Z (x_num seg1 seg2) / inject_Z (den_det seg1 seg2))%Q in
  let Y := (inject_Z (y_num seg1 seg2) / inject_Z (den_det seg1 seg2))%Q in
  on_line seg1 X Y /\ on_line seg2 X Y
  /\ forall qx qy : Q,
       on_line seg1 qx qy -> on_line seg2 qx qy -> (qx == X /\ qy == Y)%Q.
Proof.
  intros Hd X Y. apply inject_Z_nonzero in Hd.
  subst X Y. revert Hd. unfold on_line, x_num, y_num, den_det.
  push_inject_Z.
  generalize (inject_Z (x (fst seg1))) (inject_Z (y (fst seg1)))
             (inject_Z (x (snd seg1))) (inject_Z (y (snd seg1)))
             (inject_Z (x (fst seg2))) (inject_Z (y (fst seg2)))
             (inject_Z (x (snd seg2))) (inject_Z (y (snd seg2))).
  intros a1 a2 b1 b2 c1 c2 d1 d2 Hd.
  destruct (cramer_on_lines a1 a2 b1 b2 c1 c2 d1 d2 Hd) as [H1 H2].
  split; [exact H1 |]. split; [exact H2 |].
  intros qx qy G1 G2.
  exact (cramer_unique a1 a2 b1 b2 c1 c2 d1 d2 qx qy Hd G1 G2).
Qed.

Lemma inject_Z_sub_nonzero (a b : Z) :
  a <> b -> ~ (inject_Z a - inject_Z b == 0)%Q.
Proof.
  intros H. unfold Qminus. rewrite <- inject_Z_opp, <- inject_Z_plus.
  apply inject_Z_nonzero. lia.
Qed.

(** For a segment with distinct endpoints the line equation describes
    the points [A + t (B - A)]. *)
Lemma on_line_parametric (seg : seg_t Z) (qx qy : Q) :
  fst seg <> snd seg ->
  on_line seg qx qy
  <-> exists t : Q,
        (qx == inject_Z (x (fst seg))
               + t * (inject_Z (x (snd seg)) - inject_Z (x (fst seg)))
         /\ qy == inject_Z (y (fst seg))
                  + t * (inject_Z (y (snd seg)) - inject_Z (y (fst seg))))%Q.
Proof.
  destruct seg as [[ax ay] [bx by_]]. cbn [fst snd x y]. intros Hne.
  unfold on_line. cbn [fst snd x y].
  split.
  - intros H.
    destruct (Z.eq_dec bx ax) as [Ex | Ex].
    + assert (Ey : by_ <> ay) by congruence.
      pose proof (inject_Z_sub_nonzero by_ ay Ey) as Ny.
      exists ((qy - inject_Z ay) / (inject_Z by_ - inject_Z ay))%Q.
      subst bx. split; [| field; exact Ny].
      assert (E : ((inject_Z by_ - inject_Z ay) * (qx - inject_Z ax) == 0)%Q).
      { transitivity
          (- ((inject_Z ax - inject_Z ax) * (qy - inject_Z ay)
              - (inject_Z by_ - inject_Z ay) * (qx - inject_Z ax)))%Q;
          [ring | rewrite H; ring]. }
      apply Qmult_integral in E. destruct E as [E | E]; [contradiction |].
      transitivity (inject_Z ax + (qx - inject_Z ax))%Q; [ring |].
      rewrite E. ring.
    + pose proof (inject_Z_sub_nonzero bx ax Ex) as Nx.
      exists ((qx - inject_Z ax) / (inject_Z bx - inject_Z ax))%Q.
      split; [field; exact Nx |].
      set (r := (inject_Z ay
                 + (qx - inject_Z ax) / (inject_Z bx - inject_Z ax)
                   * (inject_Z by_ - inject_Z ay))%Q).
      assert (E : ((inject_Z bx - inject_Z ax) * (qy - r) == 0)%Q).
      { rewrite <- H. unfold r. field. exact Nx. }
      apply Qmult_integral in E. destruct E as [E | E]; [contradiction |].
      transitivity (r + (qy - r))%Q; [ring |]. rewrite E. ring.
  - intros (t & Hx & Hy). rewrite Hx, Hy. ring.
Qed.

(** C4. When [den_det] is not zero, [seg_intersection] returns a point
    whose coordinates, read as rationals, satisfy the equations of both
    lines, and no other rational point does; each coordinate is a fraction
    in lowest terms.  On (0,0)-(2,2) and (0,2)-(2,0) the result is
    (1/1, 1/1). *)
Theorem seg_intersection_point :
  (forall seg1 seg2 : seg_t Z,
     den_det seg1 seg2 <> 0 ->
     exists fx fy : Fraction,
       seg_intersection seg1 seg2 = Ok (Some (mkPoint fx fy))
       /\ den fx <> 0 /\ den fy <> 0
       /\ on_line seg1 (to_Q fx) (to_Q fy)
       /\ on_line seg2 (to_Q fx) (to_Q fy)
       /\ (forall qx qy : Q,
             on_line seg1 qx qy -> on_line seg2 qx qy ->
             (qx == to_Q fx /\ qy == to_Q fy)%Q)
       /\ Z.gcd (num fx) (den fx) = 1
       /\ Z.gcd (num fy) (den fy) = 1)
  /\ seg_intersection (mkPoint 0 0, mkPoint 2 2) (mkPoint 0 2, mkPoint 2 0)
     = Ok (Some (mkPoint {| num := 1; den := 1 |} {| num := 1; den := 1 |})).
Proof.
  split; [| reflexivity].
  intros seg1 seg2 Hd.
  set (fx := {| num := x_num seg1 seg2; den := den_det seg1 seg2 |}).
  set (fy := {| num := y_num seg1 seg2; den := den_det seg1 seg2 |}).
  exists (reduced fx), (reduced fy).
  split; [apply seg_intersection_some; assumption |].
  split; [apply reduced_den_nonzero; assumption |].
  split; [apply reduced_den_nonzero; assumption |].
  destruct (on_line_cramer seg1 seg2 Hd) as (H1 & H2 & Hu).
  assert (Ex : (to_Q (reduced fx) == to_Q fx)%Q) by (apply to_Q_reduced; assumption).
  assert (Ey : (to_Q (reduced fy) == to_Q fy)%Q) by (apply to_Q_reduced; assumption).
  unfold on_line in *.
  split; [rewrite Ex, Ey; exact H1 |].
  split; [rewrite Ex, Ey; exact H2 |].
  split.
  - intros qx qy G1 G2. rewrite Ex, Ey. exact (Hu qx qy G1 G2).
  - split; apply reduced_lowest_terms; assumption.
Qed.

Lemma seg_intersection_point_witness :
  den_det (mkPoint 0 0, mkPoint 3 1) (mkPoint 0 5, mkPoint 7 (-2)) <> 0
  /\ exists fx fy : Fraction,
       seg_intersection (mkPoint 0 0, mkPoint 3 1) (mkPoint 0 5, mkPoint 7 (-2))
       = Ok (Some (mkPoint fx fy))
       /\ Z.gcd (num fx) (den fx) = 1
       /\ Z.gcd (num fy) (den fy) = 1.
Proof.
  assert (Hd : den_det (mkPoint 0 0, mkPoint 3 1) (mkPoint 0 5, mkPoint 7 (-2)) <> 0)
    by (vm_compute; discriminate).
  split; [exact Hd |].
  destruct (proj1 seg_intersection_point _ _ Hd)
    as (fx & fy & Hr & _ & _ & _ & _ & _ & Hx & Hy).
  exists fx, fy. auto.
Defined.

(** ** Totality *)

(** C9. No geometric predicate fails: [side], [same_side],
    [seg_contains], [seg_intersects] and [seg_intersection] return a value
    on every input.  In [seg_intersection] a zero [den_det] returns the
    absent result before any fraction is built, and with a nonzero one
    both constructions succeed.  For a fraction with a nonzero
    denominator the gcd of its fields is not zero, and both forms of
    [reduce] return the same fraction, whose denominator is not zero. *)
Theorem predicates_total :
  (forall seg p, exists s, side seg p = Ok s)
  /\ (forall seg p q, exists b, same_side seg p q = Ok b)
  /\ (forall seg p, exists b, seg_contains seg p = Ok b)
  /\ (forall seg1 seg2, exists b, seg_intersects seg1 seg2 = Ok b)
  /\ (forall seg1 seg2, exists r, seg_intersection seg1 seg2 = Ok r)
  /\ (forall seg1 seg2,
        den_det seg1 seg2 = 0 -> seg_intersection seg1 seg2 = Ok None)
  /\ (forall seg1 seg2,
        den_det seg1 seg2 <> 0 ->
        (exists fx, Fraction_new (x_num seg1 seg2) (den_det seg1 seg2) = Ok fx)
        /\ (exists fy, Fraction_new (y_num seg1 seg2) (den_det seg1 seg2) = Ok fy))
  /\ (forall f : Fraction,
        den f <> 0 ->
        gcd (num f) (den f) <> 0
        /\ exists r : Fraction,
             reduce f = Ok r /\ reduce_in_place f = Ok r /\ den r <> 0).
Proof.
  repeat split.
  - intros. eexists. apply side_ok.
  - intros. eexists. apply same_side_ok.
  - intros. eexists. apply seg_contains_ok.
  - intros. eexists. apply seg_intersects_ok.
  - intros seg1 seg2. destruct (Z.eq_dec (den_det seg1 seg2) 0) as [E | E].
    + eexists. apply seg_intersection_parallel. exact E.
    + eexists. apply seg_intersection_some. exact E.
  - apply seg_intersection_parallel.
  - eexists. apply Fraction_new_ok. assumption.
  - eexists. apply Fraction_new_ok. assumption.
  - apply gcd_nonzero. assumption.
  - exists (reduced f). split; [apply reduce_ok; assumption |].
    split; [apply reduce_in_place_ok; assumption |].
    apply reduced_den_nonzero. assumption.
Qed.

Lemma predicates_total_witness :
  den {| num := 6; den := -4 |} <> 0
  /\ gcd 6 (-4) <> 0
  /\ exists r : Fraction,
       reduce {| num := 6; den := -4 |} = Ok r
       /\ reduce_in_place {| num := 6; den := -4 |} = Ok r /\ den r <> 0.
Proof.
  assert (Hd : den {| num := 6; den := -4 |} <> 0) by (cbn; lia).
  split; [exact Hd |].
  exact (proj2 (proj2 (proj2 (proj2 (proj2 (proj2 (proj2 predicates_total))))))
           {| num := 6; den := -4 |} Hd).
Defined.

(** C6. [Fraction(n, d)] fails with the domain error exactly when [d] is
    zero; otherwise it succeeds and holds [n] and [d] as given, neither
    reduced nor sign-normalised. *)
Theorem Fraction_new_spec (n d : Z) :
  (Fraction_new n d = Err DomainError <-> d = 0)
  /\ (d <> 0 -> Fraction_new n d = Ok {| num := n; den := d |}).
Proof.
  split; [| apply Fraction_new_ok].
  unfold Fraction_new. destruct (Z.eqb_spec d 0); simpl; split;
    intros; congruence.
Qed.

Lemma Fraction_new_spec_witness :
  -4 <> 0 /\ Fraction_new 6 (-4) = Ok {| num := 6; den := -4 |}.
Proof.
  split; [lia | apply (proj2 (Fraction_new_spec 6 (-4))); lia].
Defined.

(** C7. For nonzero [n] and [d], reducing [Fraction(n, d)], in either
    form, gives fields [num], [den] with [num * d = n * den] that are in
    lowest terms: their gcd is 1 in absolute value. *)
Theorem reduce_round_trip (n d : Z) :
  n <> 0 -> d <> 0 ->
  exists f r : Fraction,
    Fraction_new n d = Ok f
    /\ reduce f = Ok r /\ reduce_in_place f = Ok r
    /\ num r * d = n * den r
    /\ Z.gcd (num r) (den r) = 1
    /\ Z.abs (gcd (num r) (den r)) = 1.
Proof.
  intros Hn Hd.
  exists {| num := n; den := d |}, (reduced {| num := n; den := d |}).
  split; [apply Fraction_new_ok; assumption |].
  split; [apply reduce_ok; assumption |].
  split; [apply reduce_in_place_ok; assumption |].
  split; [exact (reduced_cross {| num := n; den := d |} Hd) |].
  pose proof (reduced_lowest_terms {| num := n; den := d |} Hd) as Hl.
  split; [exact Hl |]. rewrite gcd_abs. exact Hl.
Qed.

Lemma reduce_round_trip_witness :
  6 <> 0 /\ -4 <> 0 /\
  exists f r : Fraction,
    Fraction_new 6 (-4) = Ok f
    /\ reduce f = Ok r /\ reduce_in_place f = Ok r
    /\ num r * (-4) = 6 * den r
    /\ Z.gcd (num r) (den r) = 1
    /\ Z.abs (gcd (num r) (den r)) = 1.
Proof.
  split; [lia |]. split; [lia |].
  apply (reduce_round_trip 6 (-4)); lia.
Defined.

(** C10. For a nonzero denominator [d] of either sign, [gcd(0, d)] is [d]
    and reducing [Fraction(0, d)] gives exactly [0/1]. *)
Theorem reduce_zero_numerator (d : Z) :
  d <> 0 ->
  gcd 0 d = d
  /\ exists f : Fraction,
       Fraction_new 0 d = Ok f
       /\ reduce f = Ok {| num := 0; den := 1 |}
       /\ reduce_in_place f = Ok {| num := 0; den := 1 |}.
Proof.
  intros Hd.
  assert (Hg : gcd 0 d = d).
  { rewrite gcd_step by assumption. rewrite Z.rem_0_l by assumption.
    apply gcd_0_r. }
  split; [exact Hg |].
  exists {| num := 0; den := d |}.
  split; [apply Fraction_new_ok; assumption |].
  assert (Hr : reduced {| num := 0; den := d |} = {| num := 0; den := 1 |}).
  { unfold reduced. simpl. rewrite Hg.
    rewrite Z.quot_0_l, Z.quot_same by assumption. reflexivity. }
  rewrite <- Hr. split; [apply reduce_ok | apply reduce_in_place_ok]; assumption.
Qed.

Lemma reduce_zero_numerator_witness :
  -7 <> 0
  /\ gcd 0 (-7) = -7
  /\ exists f : Fraction,
       Fraction_new 0 (-7) = Ok f
       /\ reduce f = Ok {| num := 0; den := 1 |}
       /\ reduce_in_place f = Ok {| num := 0; den := 1 |}.
Proof.
  split; [lia | apply (reduce_zero_numerator (-7)); lia].
Defined.

(** * Further properties of the library *)

(** ** The Euclidean loop, continued *)

(** The loop commutes with scaling both arguments, negative factors
    included. *)
Lemma gcd_scale (k a b : Z) : k <> 0 -> gcd (k * a) (k * b) = k * gcd a b.
Proof.
  intros Hk. funelim (gcd a b).
  - subst b. rewrite Z.mul_0_r, gcd_0_r. reflexivity.
  - rewrite gcd_step by lia.
    rewrite Z.mul_rem_distr_l by assumption.
    match goal with IH : forall k : Z, _ -> gcd _ _ = _ |- _ => apply IH end.
    assumption.
Qed.

(** X1. [gcd a b] divides [a] and [b], every common divisor of [a] and
    [b] divides it, and it is zero only when both arguments are. *)
Theorem gcd_greatest_common_divisor (a b : Z) :
  (gcd a b | a) /\ (gcd a b | b)
  /\ (forall c : Z, (c | a) -> (c | b) -> (c | gcd a b))
  /\ (gcd a b = 0 <-> a = 0 /\ b = 0).
Proof.
  split; [apply gcd_divide_l |]. split; [apply gcd_divide_r |]. split.
  - intros c Ha Hb. apply Z.divide_abs_r. rewrite gcd_abs.
    apply Z.gcd_greatest; assumption.
  - pose proof (gcd_abs a b) as H. split.
    + intros E. rewrite E in H. cbn in H. symmetry in H.
      split; [exact (Z.gcd_eq_0_l _ _ H) | exact (Z.gcd_eq_0_r _ _ H)].
    + intros [-> ->]. apply gcd_0_r.
Qed.

Lemma gcd_greatest_common_divisor_witness :
  (2 | 12) /\ (2 | 18) /\ (2 | gcd 12 18).
Proof.
  assert (H1 : (2 | 12)) by (exists 6; reflexivity).
  assert (H2 : (2 | 18)) by (exists 9; reflexivity).
  split; [exact H1 |]. split; [exact H2 |].
  exact (proj1 (proj2 (proj2 (gcd_greatest_common_divisor 12 18))) 2 H1 H2).
Defined.

(** X2. Scaling both arguments by a nonzero factor [k], of either sign,
    scales the result of the loop by [k]: [gcd (k*a) (k*b) = k * gcd a b].
    In particular negating both arguments negates the result. *)
Theorem gcd_homogeneous (k a b : Z) :
  k <> 0 -> gcd (k * a) (k * b) = k * gcd a b /\ gcd (- a) (- b) = - gcd a b.
Proof.
  intros Hk. split; [apply gcd_scale; assumption |].
  replace (- a) with (-1 * a) by ring. replace (- b) with (-1 * b) by ring.
  rewrite gcd_scale by lia. ring.
Qed.

Lemma gcd_homogeneous_witness :
  -3 <> 0 /\ gcd (-3 * 4) (-3 * 6) = -3 * gcd 4 6.
Proof.
  split; [lia | apply (proj1 (gcd_homogeneous (-3) 4 6 ltac:(lia)))].
Defined.

(** ** Reduction as a normal form *)

Lemma reduced_scale (k n d : Z) :
  k <> 0 -> d <> 0 ->
  reduced {| num := k * n; den := k * d |} = reduced {| num := n; den := d |}.
Proof.
  intros Hk Hd. unfold reduced. cbn [num den].
  rewrite gcd_scale by assumption.
  pose proof (gcd_nonzero n d Hd) as Hg.
  rewrite !Z.quot_mul_cancel_l by assumption. reflexivity.
Qed.

Lemma reduced_gcd_one (f : Fraction) :
  den f <> 0 -> gcd (num (reduced f)) (den (reduced f)) = 1.
Proof.
  destruct f as [n d]. cbn [num den]. intros Hd.
  pose proof (gcd_nonzero n d Hd) as Hg.
  destruct (gcd_divide_l n d) as [k Hk].
  destruct (gcd_divide_r n d) as [l Hl].
  unfold reduced. cbn [num den].
  remember (gcd n d) as g eqn:Eg.
  assert (En : Z.quot n g = k) by (rewrite Hk; apply Z.quot_mul; assumption).
  assert (Ed : Z.quot d g = l) by (rewrite Hl; apply Z.quot_mul; assumption).
  rewrite En, Ed.
  assert (E : g = g * gcd k l).
  { rewrite <- gcd_scale by assumption.
    rewrite (Z.mul_comm g k), (Z.mul_comm g l), <- Hk, <- Hl. exact Eg. }
  apply (Z.mul_reg_l _ _ g Hg). lia.
Qed.

Lemma reduced_cross_eq (n1 d1 n2 d2 : Z) :
  d1 <> 0 -> d2 <> 0 -> n1 * d2 = n2 * d1 ->
  reduced {| num := n1; den := d1 |} = reduced {| num := n2; den := d2 |}.
Proof.
  intros H1 H2 Hc.
  rewrite <- (reduced_scale d2 n1 d1) by assumption.
  rewrite <- (reduced_scale d1 n2 d2) by assumption.
  f_equal. f_equal; lia.
Qed.

(** X3. Reducing a reduced fraction changes nothing: after either form of
    [reduce] the loop finds the divisor 1, not only a divisor of absolute
    value 1, and both forms return their argument. *)
Theorem reduce_idempotent (f r : Fraction) :
  den f <> 0 -> reduce f = Ok r ->
  gcd (num r) (den r) = 1 /\ reduce r = Ok r /\ reduce_in_place r = Ok r.
Proof.
  intros Hd Hr. rewrite reduce_ok in Hr by assumption.
  injection Hr as <-.
  pose proof (reduced_gcd_one f Hd) as Hg.
  pose proof (reduced_den_nonzero f Hd) as Hd'.
  assert (E : reduced (reduced f) = reduced f).
  { unfold reduced at 1. rewrite Hg, !Z.quot_1_r.
    destruct (reduced f); reflexivity. }
  split; [exact Hg |].
  rewrite reduce_ok, reduce_in_place_ok, E by assumption. split; reflexivity.
Qed.

Lemma reduce_idempotent_witness :
  den {| num := -6; den := 4 |} <> 0
  /\ reduce {| num := -6; den := 4 |} = Ok {| num := 3; den := -2 |}
  /\ reduce {| num := 3; den := -2 |} = Ok {| num := 3; den := -2 |}.
Proof.
  assert (Hd : den {| num := -6; den := 4 |} <> 0) by (cbn; lia).
  assert (Hr : reduce {| num := -6; den := 4 |} = Ok {| num := 3; den := -2 |})
    by reflexivity.
  split; [exact Hd |]. split; [exact Hr |].
  exact (proj1 (proj2 (reduce_idempotent _ _ Hd Hr))).
Defined.

(** X4. Reduction is a normal form for the rational a fraction stands
    for: two fractions with nonzero denominators and equal cross products
    reduce, in either form, to the same numerator and the same
    denominator, signs included. *)
Theorem reduce_canonical (f1 f2 : Fraction) :
  den f1 <> 0 -> den f2 <> 0 ->
  num f1 * den f2 = num f2 * den f1 ->
  reduce f1 = reduce f2 /\ reduce_in_place f1 = reduce_in_place f2.
Proof.
  destruct f1 as [n1 d1], f2 as [n2 d2]. cbn [num den]. intros H1 H2 Hc.
  rewrite !reduce_ok, !reduce_in_place_ok by assumption.
  rewrite (reduced_cross_eq n1 d1 n2 d2 H1 H2 Hc). split; reflexivity.
Qed.

Lemma reduce_canonical_witness :
  den {| num := 6; den := -4 |} <> 0 /\ den {| num := -9; den := 6 |} <> 0
  /\ reduce {| num := 6; den := -4 |} = reduce {| num := -9; den := 6 |}.
Proof.
  assert (H1 : den {| num := 6; den := -4 |} <> 0) by (cbn; lia).
  assert (H2 : den {| num := -9; den := 6 |} <> 0) by (cbn; lia).
  split; [exact H1 |]. split; [exact H2 |].
  exact (proj1 (reduce_canonical _ _ H1 H2 ltac:(reflexivity))).
Defined.

(** X5. The fields of a fraction are public, so a zero denominator can be
    stored after construction.  On such a fraction the two forms of
    [reduce] part ways: with a nonzero numerator the in-place form
    leaves 1/0 behind and the form that returns a value meets the domain
    error of the constructor; with numerator zero both divide by zero. *)
Theorem reduce_zero_denominator (n : Z) :
  (n <> 0 ->
   reduce_in_place {| num := n; den := 0 |} = Ok {| num := 1; den := 0 |}
   /\ reduce {| num := n; den := 0 |} = Err DomainError)
  /\ reduce_in_place {| num := 0; den := 0 |} = Err DivisionByZero
  /\ reduce {| num := 0; den := 0 |} = Err DivisionByZero.
Proof.
  split; [| split; reflexivity].
  intros Hn. unfold reduce_in_place, reduce. cbn [num den].
  rewrite gcd_0_r, !div_ok by assumption. cbn [bind].
  rewrite Z.quot_same, Z.quot_0_l by assumption. split; reflexivity.
Qed.

Lemma reduce_zero_denominator_witness :
  -5 <> 0
  /\ reduce_in_place {| num := -5; den := 0 |} = Ok {| num := 1; den := 0 |}
  /\ reduce {| num := -5; den := 0 |} = Err DomainError.
Proof.
  split; [lia | apply (proj1 (reduce_zero_denominator (-5))); lia].
Defined.

(** ** Matrices *)

Lemma Matrix3x3_init_inv (values : list Z) (m : Matrix3x3) :
  Matrix3x3_init values = Ok m ->
  exists a b c d e f g h i,
    values = [a; b; c; d; e; f; g; h; i] /\ vals3 m = values.
Proof.
  unfold Matrix3x3_init. intros H.
  destruct values as [| a [| b [| c [| d [| e [| f [| g [| h [| i [| j l]]]]]]]]]];
    try discriminate H.
  injection H as <-. exists a, b, c, d, e, f, g, h, i. split; reflexivity.
Qed.

Lemma Matrix2x2_init_inv (values : list Z) (m : Matrix2x2) :
  Matrix2x2_init values = Ok m ->
  exists a b c d, values = [a; b; c; d] /\ vals2 m = values.
Proof.
  unfold Matrix2x2_init. intros H.
  destruct values as [| a [| b [| c [| d [| e l]]]]]; try discriminate H.
  injection H as <-. exists a, b, c, d. split; reflexivity.
Qed.

(** X6. The matrix constructors fail their assertion exactly when the
    number of values is not 9 (not 4 for the 2x2 matrix).  Otherwise
    element [(col, row)] is value number [row * N + col] of the list: the
    values are rows, and the first index is the column. *)
Theorem Matrix_init_row_major (values : list Z) :
  (Matrix3x3_init values = Err AssertionFailed <-> length values <> 9%nat)
  /\ (Matrix2x2_init values = Err AssertionFailed <-> length values <> 4%nat)
  /\ (forall m col row,
        Matrix3x3_init values = Ok m -> (col < 3)%nat -> (row < 3)%nat ->
        at3 m (col, row)
        = nth col (nth row [firstn 3 values; firstn 3 (skipn 3 values);
                            skipn 6 values] []) 0)
  /\ (forall m col row,
        Matrix2x2_init values = Ok m -> (col < 2)%nat -> (row < 2)%nat ->
        at2 m (col, row)
        = nth col (nth row [firstn 2 values; skipn 2 values] []) 0).
Proof.
  split; [| split; [| split]].
  - unfold Matrix3x3_init. destruct (Nat.eqb_spec (length values) 9);
      split; intros; congruence.
  - unfold Matrix2x2_init. destruct (Nat.eqb_spec (length values) 4);
      split; intros; congruence.
  - intros m col row Hm Hc Hr.
    destruct (Matrix3x3_init_inv values m Hm)
      as (a & b & c & d & e & f & g & h & i & -> & Hv).
    unfold at3. rewrite Hv. cbn [fst snd].
    destruct row as [| [| [| row]]]; try lia;
      destruct col as [| [| [| col]]]; try lia; reflexivity.
  - intros m col row Hm Hc Hr.
    destruct (Matrix2x2_init_inv values m Hm) as (a & b & c & d & -> & Hv).
    unfold at2. rewrite Hv. cbn [fst snd].
    destruct row as [| [| row]]; try lia;
      destruct col as [| [| col]]; try lia; reflexivity.
Qed.

Lemma Matrix_init_row_major_witness :
  Matrix3x3_init [1; 2; 3; 4; 5; 6; 7; 8; 9]
  = Ok {| vals3 := [1; 2; 3; 4; 5; 6; 7; 8; 9] |}
  /\ (2 < 3)%nat /\ (1 < 3)%nat
  /\ at3 {| vals3 := [1; 2; 3; 4; 5; 6; 7; 8; 9] |} (2, 1)%nat = 6.
Proof.
  split; [reflexivity |]. split; [lia |]. split; [lia |].
  exact (proj1 (proj2 (proj2 (Matrix_init_row_major [1; 2; 3; 4; 5; 6; 7; 8; 9])))
           _ 2%nat 1%nat eq_refl ltac:(lia) ltac:(lia)).
Defined.

(** X7. Reading back a cell written through [operator[]]: on a constructed
    matrix a write at an in-range [(col, row)] succeeds, the cell then holds
    the written value, every other in-range cell holds what it held, and
    the matrix still has its nine (four) cells. *)
Theorem Matrix_set_get (values : list Z) (v : Z) :
  (forall m col row,
     Matrix3x3_init values = Ok m -> (col < 3)%nat -> (row < 3)%nat ->
     exists m',
       Matrix3x3_set m (col, row) v = Some m'
       /\ length (vals3 m') = 9%nat
       /\ at3 m' (col, row) = v
       /\ forall col' row',
            (col' < 3)%nat -> (row' < 3)%nat -> (col', row') <> (col, row) ->
            at3 m' (col', row') = at3 m (col', row'))
  /\ (forall m col row,
        Matrix2x2_init values = Ok m -> (col < 2)%nat -> (row < 2)%nat ->
        exists m',
          Matrix2x2_set m (col, row) v = Some m'
          /\ length (vals2 m') = 4%nat
          /\ at2 m' (col, row) = v
          /\ forall col' row',
               (col' < 2)%nat -> (row' < 2)%nat -> (col', row') <> (col, row) ->
               at2 m' (col', row') = at2 m (col', row')).
Proof.
  split.
  - intros m col row Hm Hc Hr.
    destruct (Matrix3x3_init_inv values m Hm)
      as (a & b & c & d & e & f & g & h & i & -> & Hv).
    destruct m as [vs]. cbn [vals3] in Hv. subst vs.
    destruct row as [| [| [| row]]]; try lia;
      destruct col as [| [| [| col]]]; try lia;
      (eexists; split; [reflexivity |]; split; [reflexivity |];
       split; [reflexivity |];
       intros col' row' Hc' Hr' Hne;
       destruct row' as [| [| [| row']]]; try lia;
       destruct col' as [| [| [| col']]]; try lia;
       try reflexivity; congruence).
  - intros m col row Hm Hc Hr.
    destruct (Matrix2x2_init_inv values m Hm) as (a & b & c & d & -> & Hv).
    destruct m as [vs]. cbn [vals2] in Hv. subst vs.
    destruct row as [| [| row]]; try lia;
      destruct col as [| [| col]]; try lia;
      (eexists; split; [reflexivity |]; split; [reflexivity |];
       split; [reflexivity |];
       intros col' row' Hc' Hr' Hne;
       destruct row' as [| [| row']]; try lia;
       destruct col' as [| [| col']]; try lia;
       try reflexivity; congruence).
Qed.

Lemma Matrix_set_get_witness :
  Matrix2x2_init [1; 2; 3; 4] = Ok {| vals2 := [1; 2; 3; 4] |}
  /\ (1 < 2)%nat /\ (0 < 2)%nat
  /\ exists m',
       Matrix2x2_set {| vals2 := [1; 2; 3; 4] |} (1, 0)%nat 7 = Some m'
       /\ at2 m' (1, 0)%nat = 7.
Proof.
  split; [reflexivity |]. split; [lia |]. split; [lia |].
  destruct (proj2 (Matrix_set_get [1; 2; 3; 4] 7) _ 1%nat 0%nat
              eq_refl ltac:(lia) ltac:(lia)) as (m' & Hs & _ & Hg & _).
  exists m'. split; assumption.
Defined.

(** ** Determinants *)

(** X8. On any nine values, [det] of the 3x3 matrix built from them is the
    determinant of the matrix with those rows (its expansion along the
    first row), and the transposed matrix has the same determinant; on any
    four values, [det] of the 2x2 matrix is [a*d - b*c], also after
    transposition. *)
Theorem det_is_determinant (a b c d e f g h i : Z) :
  (m <- Matrix3x3_init [a; b; c; d; e; f; g; h; i] ;; Ok (det3 m))
  = Ok (det_rows (a, b, c) (d, e, f) (g, h, i))
  /\ (m <- Matrix3x3_init [a; d; g; b; e; h; c; f; i] ;; Ok (det3 m))
     = Ok (det_rows (a, b, c) (d, e, f) (g, h, i))
  /\ (m <- Matrix2x2_init [a; b; c; d] ;; Ok (det2 m)) = Ok (a * d - b * c)
  /\ (m <- Matrix2x2_init [a; c; b; d] ;; Ok (det2 m)) = Ok (a * d - b * c).
Proof.
  unfold det_rows. repeat split; eval_matrix; f_equal; ring.
Qed.

(** X9. Swapping two rows of a matrix negates its determinant, for each
    of the three pairs of rows of a 3x3 matrix and for the two rows of a
    2x2 matrix; a 3x3 matrix with two equal rows, or a 2x2 matrix with
    equal rows, has determinant zero. *)
Theorem det_row_swap (r0 r1 r2 : Z * Z * Z) (s0 s1 : Z * Z) :
  let m3 (u v w : Z * Z * Z) :=
    let '(a, b, c) := u in let '(d, e, f) := v in let '(g, h, i) := w in
    (m <- Matrix3x3_init [a; b; c; d; e; f; g; h; i] ;; Ok (det3 m)) in
  let m2 (u v : Z * Z) :=
    (m <- Matrix2x2_init [fst u; snd u; fst v; snd v] ;; Ok (det2 m)) in
  exists t3 t2 : Z,
    m3 r0 r1 r2 = Ok t3
    /\ m3 r1 r0 r2 = Ok (- t3)
    /\ m3 r0 r2 r1 = Ok (- t3)
    /\ m3 r2 r1 r0 = Ok (- t3)
    /\ m3 r0 r0 r2 = Ok 0 /\ m3 r0 r1 r1 = Ok 0 /\ m3 r0 r1 r0 = Ok 0
    /\ m2 s0 s1 = Ok t2
    /\ m2 s1 s0 = Ok (- t2)
    /\ m2 s0 s0 = Ok 0.
Proof.
  destruct r0 as [[a b] c], r1 as [[d e] f], r2 as [[g h] i].
  destruct s0 as [p q], s1 as [r s]. cbv zeta. cbn [fst snd].
  eval_matrix. do 2 eexists.
  repeat split; try reflexivity; f_equal; ring.
Qed.

(** ** Symmetries of the orientation predicate *)

Lemma sgn_mul_square (k v : Z) : k <> 0 -> sgn (k * k * v) = sgn v.
Proof.
  intros Hk. assert (Hkk : 0 < k * k) by nia.
  destruct (sgn_cases v) as [[H ->] | [[H ->] | [H ->]]];
    destruct (sgn_cases (k * k * v)) as [[H' E] | [[H' E] | [H' E]]];
    rewrite E; try reflexivity; nia.
Qed.

(** X10. Reversing the direction of the segment negates [side]; rotating
    the three points ([A B P] to [B P A] to [P A B]) keeps it; exchanging
    the point with the second endpoint negates it. *)
Theorem side_symmetries (A B P : pos_t Z) :
  exists s : Z,
    side (A, B) P = Ok s
    /\ side (B, A) P = Ok (- s)
    /\ side (B, P) A = Ok s
    /\ side (P, A) B = Ok s
    /\ side (A, P) B = Ok (- s).
Proof.
  exists (side_value (A, B) P). rewrite !side_ok.
  unfold side_value. cbn [fst snd]. rewrite <- !sgn_opp.
  repeat split; do 2 f_equal; unfold det_rows; ring.
Qed.

(** X11. [side] does not change when the segment and the point are moved
    by the same translation, nor when all coordinates are multiplied by
    the same nonzero factor, negative factors (point reflection) included. *)
Theorem side_translation_scaling (k tx ty : Z) (A B P : pos_t Z) :
  k <> 0 ->
  let move (p : pos_t Z) := mkPoint (k * x p + tx) (k * y p + ty) in
  side (move A, move B) (move P) = side (A, B) P.
Proof.
  intros Hk move. rewrite !side_ok. f_equal.
  unfold side_value, move. cbn [fst snd x y].
  rewrite <- (sgn_mul_square k
                (det_rows (x A, y A, 1) (x B, y B, 1) (x P, y P, 1)) Hk).
  f_equal. unfold det_rows. ring.
Qed.

Lemma side_translation_scaling_witness :
  -2 <> 0
  /\ side (mkPoint (-2 * 0 + 5) (-2 * 0 + 1), mkPoint (-2 * 1 + 5) (-2 * 0 + 1))
          (mkPoint (-2 * 0 + 5) (-2 * 1 + 1))
     = side (mkPoint 0 0, mkPoint 1 0) (mkPoint 0 1).
Proof.
  split; [lia |].
  exact (side_translation_scaling (-2) 5 1
           (mkPoint 0 0) (mkPoint 1 0) (mkPoint 0 1) ltac:(lia)).
Defined.

(** X12. Both endpoints of a segment are on its line.  For a segment
    whose endpoints coincide every point is: [side] is 0 everywhere, any
    two points are on the same side, and [seg_intersection] with any
    other segment, on either side of the call, is absent. *)
Theorem degenerate_segment (A B P Q : pos_t Z) (seg : seg_t Z) :
  side (A, B) A = Ok 0 /\ side (A, B) B = Ok 0
  /\ side (A, A) P = Ok 0
  /\ same_side (A, A) P Q = Ok true
  /\ seg_intersection (A, A) seg = Ok None
  /\ seg_intersection seg (A, A) = Ok None.
Proof.
  assert (Hz : forall R, side_value (A, A) R = 0).
  { intros R. apply side_value_zero. ring. }
  rewrite same_side_ok, !side_ok, !Hz.
  repeat split.
  - f_equal. apply side_value_zero. ring.
  - f_equal. apply side_value_zero. ring.
  - apply seg_intersection_parallel. unfold den_det. cbn [fst snd]. ring.
  - apply seg_intersection_parallel. unfold den_det. cbn [fst snd]. ring.
Qed.

(** X13. For a fixed segment [same_side] is an equivalence on points:
    reflexive, symmetric and transitive; and it does not depend on the
    direction of the segment. *)
Theorem same_side_equivalence (A B P Q R : pos_t Z) :
  same_side (A, B) P P = Ok true
  /\ same_side (A, B) P Q = same_side (A, B) Q P
  /\ (same_side (A, B) P Q = Ok true -> same_side (A, B) Q R = Ok true ->
      same_side (A, B) P R = Ok true)
  /\ same_side (B, A) P Q = same_side (A, B) P Q.
Proof.
  rewrite !same_side_ok, !(side_value_swap A B).
  repeat split.
  - now rewrite Z.eqb_refl.
  - now rewrite Z.eqb_sym.
  - intros H1 H2. injection H1 as H1. injection H2 as H2.
    apply Z.eqb_eq in H1, H2. f_equal. apply Z.eqb_eq. congruence.
  - f_equal.
    destruct (Z.eqb_spec (- side_value (A, B) P) (- side_value (A, B) Q)),
             (Z.eqb_spec (side_value (A, B) P) (side_value (A, B) Q));
      try reflexivity; lia.
Qed.

Lemma same_side_equivalence_witness :
  same_side (mkPoint 0 0, mkPoint 1 0) (mkPoint 0 1) (mkPoint 3 2) = Ok true
  /\ same_side (mkPoint 0 0, mkPoint 1 0) (mkPoint 3 2) (mkPoint (-1) 5) = Ok true
  /\ same_side (mkPoint 0 0, mkPoint 1 0) (mkPoint 0 1) (mkPoint (-1) 5) = Ok true.
Proof.
  assert (H1 : same_side (mkPoint 0 0, mkPoint 1 0) (mkPoint 0 1) (mkPoint 3 2)
               = Ok true) by reflexivity.
  assert (H2 : same_side (mkPoint 0 0, mkPoint 1 0) (mkPoint 3 2) (mkPoint (-1) 5)
               = Ok true) by reflexivity.
  split; [exact H1 |]. split; [exact H2 |].
  exact (proj1 (proj2 (proj2 (same_side_equivalence
           (mkPoint 0 0) (mkPoint 1 0) (mkPoint 0 1) (mkPoint 3 2)
           (mkPoint (-1) 5)))) H1 H2).
Defined.

(** ** What the containment test accepts *)

(** X14. [seg_contains] accepts only points collinear with the segment,
    and among those it decides by the upper bounds of the box alone: on
    each axis the larger endpoint coordinate must be at least 1, or be 0
    with the point below the smaller one.  So when both upper bounds are
    at least 1 every point of the line is accepted, and when one of them
    is negative no point is. *)
Theorem seg_contains_acceptance (seg : seg_t Z) (p : pos_t Z) :
  let max_x := Z.max (x (fst seg)) (x (snd seg)) in
  let max_y := Z.max (y (fst seg)) (y (snd seg)) in
  (seg_contains seg p = Ok true
   <-> side seg p = Ok 0
       /\ (1 <= max_x \/ (max_x = 0 /\ x p < Z.min (x (fst seg)) (x (snd seg))))
       /\ (1 <= max_y \/ (max_y = 0 /\ y p < Z.min (y (fst seg)) (y (snd seg)))))
  /\ (1 <= max_x -> 1 <= max_y ->
      (seg_contains seg p = Ok true <-> side seg p = Ok 0))
  /\ (max_x < 0 \/ max_y < 0 -> seg_contains seg p = Ok false).
Proof.
  intros max_x max_y. pose proof (seg_contains_true seg p) as H.
  fold max_x max_y in H. split; [exact H |]. split.
  - intros Hx Hy. rewrite H. tauto.
  - intros Hneg. rewrite seg_contains_ok in *.
    destruct (seg_contains_value seg p); [| reflexivity].
    exfalso. assert (T : Ok true = Ok true) by reflexivity.
    apply H in T. lia.
Qed.

Lemma seg_contains_acceptance_witness :
  1 <= Z.max 0 2
  /\ (seg_contains (mkPoint 0 0, mkPoint 2 2) (mkPoint 7 7) = Ok true
      <-> side (mkPoint 0 0, mkPoint 2 2) (mkPoint 7 7) = Ok 0).
Proof.
  split; [cbn; lia |].
  apply (proj1 (proj2 (seg_contains_acceptance
                         (mkPoint 0 0, mkPoint 2 2) (mkPoint 7 7))));
    cbn; lia.
Defined.

Lemma seg_contains_value_swap (A B p : pos_t Z) :
  seg_contains_value (B, A) p = seg_contains_value (A, B) p.
Proof.
  unfold seg_contains_value. rewrite side_value_swap. cbn [fst snd].
  rewrite (Z.min_comm (x B)), (Z.max_comm (x B)),
          (Z.min_comm (y B)), (Z.max_comm (y B)).
  do 2 f_equal.
  destruct (Z.eqb_spec (- side_value (A, B) p) 0),
           (Z.eqb_spec (side_value (A, B) p) 0); try reflexivity; lia.
Qed.

Lemma side_value_eqb_swap (A B p q : pos_t Z) :
  (side_value (B, A) p =? side_value (B, A) q)
  = (side_value (A, B) p =? side_value (A, B) q).
Proof.
  rewrite !(side_value_swap A B).
  destruct (Z.eqb_spec (- side_value (A, B) p) (- side_value (A, B) q)),
           (Z.eqb_spec (side_value (A, B) p) (side_value (A, B) q));
    try reflexivity; lia.
Qed.

(** X15. [seg_contains] does not depend on the order of the endpoints of
    the segment. *)
Theorem seg_contains_reversal (A B p : pos_t Z) :
  seg_contains (B, A) p = seg_contains (A, B) p.
Proof.
  rewrite !seg_contains_ok. f_equal. apply seg_contains_value_swap.
Qed.

(** ** Symmetries and correctness range of the intersection test *)

(** X16. [seg_intersects] does not depend on the order of its two
    segments, nor on the order of the endpoints of either. *)
Theorem seg_intersects_symmetries (A B C D : pos_t Z) :
  seg_intersects (C, D) (A, B) = seg_intersects (A, B) (C, D)
  /\ seg_intersects (B, A) (C, D) = seg_intersects (A, B) (C, D)
  /\ seg_intersects (A, B) (D, C) = seg_intersects (A, B) (C, D).
Proof.
  rewrite !seg_intersects_ok. cbn [fst snd].
  rewrite !(seg_contains_value_swap A B), !(seg_contains_value_swap C D).
  rewrite !(side_value_eqb_swap A B), !(side_value_eqb_swap C D).
  rewrite (Z.eqb_sym (side_value (A, B) D)), (Z.eqb_sym (side_value (C, D) B)).
  repeat split; f_equal;
    destruct (side_value (A, B) C =? side_value (A, B) D),
             (side_value (C, D) A =? side_value (C, D) B),
             (seg_contains_value (A, B) C), (seg_contains_value (A, B) D),
             (seg_contains_value (C, D) A), (seg_contains_value (C, D) B);
    reflexivity.
Qed.

(** X17. In general position, that is when no endpoint of one segment is
    on the line of the other, [seg_intersects] is exact: it returns true
    exactly when the endpoints of each segment are strictly on opposite
    sides of the other. *)
Theorem seg_intersects_general_position (seg1 seg2 : seg_t Z) :
  side seg1 (fst seg2) <> Ok 0 -> side seg1 (snd seg2) <> Ok 0 ->
  side seg2 (fst seg1) <> Ok 0 -> side seg2 (snd seg1) <> Ok 0 ->
  (seg_intersects seg1 seg2 = Ok true
   <-> opposite_sides seg1 (fst seg2) (snd seg2)
       /\ opposite_sides seg2 (fst seg1) (snd seg1)).
Proof.
  rewrite !side_ok, !opposite_sides_iff, seg_intersects_ok.
  intros H1 H2 H3 H4.
  assert (N : forall seg p, Ok (side_value seg p) <> Ok 0 ->
                            seg_contains_value seg p = false).
  { intros seg p Hn. unfold seg_contains_value.
    destruct (Z.eqb_spec (side_value seg p) 0) as [E | E];
      [rewrite E in Hn; contradiction | reflexivity]. }
  rewrite !N by assumption. rewrite !orb_false_r.
  assert (forall s : Z, Ok s <> Ok 0 -> s <> 0) as Nz by (intros s Hs ->; auto).
  apply Nz in H1, H2, H3, H4.
  destruct (Z.eqb_spec (side_value seg1 (fst seg2)) (side_value seg1 (snd seg2))),
           (Z.eqb_spec (side_value seg2 (fst seg1)) (side_value seg2 (snd seg1)));
    cbn [negb andb]; split; intros H; try discriminate H; tauto.
Qed.

Lemma seg_intersects_general_position_witness :
  side (mkPoint 0 0, mkPoint 2 2) (mkPoint 2 0) <> Ok 0
  /\ side (mkPoint 0 0, mkPoint 2 2) (mkPoint 0 2) <> Ok 0
  /\ side (mkPoint 2 0, mkPoint 0 2) (mkPoint 0 0) <> Ok 0
  /\ side (mkPoint 2 0, mkPoint 0 2) (mkPoint 2 2) <> Ok 0
  /\ (seg_intersects (mkPoint 0 0, mkPoint 2 2) (mkPoint 2 0, mkPoint 0 2)
      = Ok true
      <-> opposite_sides (mkPoint 0 0, mkPoint 2 2) (mkPoint 2 0) (mkPoint 0 2)
          /\ opposite_sides (mkPoint 2 0, mkPoint 0 2) (mkPoint 0 0) (mkPoint 2 2)).
Proof.
  assert (H1 : side (mkPoint 0 0, mkPoint 2 2) (mkPoint 2 0) <> Ok 0)
    by (vm_compute; discriminate).
  assert (H2 : side (mkPoint 0 0, mkPoint 2 2) (mkPoint 0 2) <> Ok 0)
    by (vm_compute; discriminate).
  assert (H3 : side (mkPoint 2 0, mkPoint 0 2) (mkPoint 0 0) <> Ok 0)
    by (vm_compute; discriminate).
  assert (H4 : side (mkPoint 2 0, mkPoint 0 2) (mkPoint 2 2) <> Ok 0)
    by (vm_compute; discriminate).
  repeat (split; [assumption |]).
  exact (seg_intersects_general_position
           (mkPoint 0 0, mkPoint 2 2) (mkPoint 2 0, mkPoint 0 2) H1 H2 H3 H4).
Defined.

(** ** Symmetries of the intersection point *)

Lemma den_det_swap (seg1 seg2 : seg_t Z) :
  den_det seg2 seg1 = - den_det seg1 seg2
  /\ x_num seg2 seg1 = - x_num seg1 seg2
  /\ y_num seg2 seg1 = - y_num seg1 seg2.
Proof. unfold den_det, x_num, y_num. repeat split; ring. Qed.

Lemma den_det_reverse (A B : pos_t Z) (seg2 : seg_t Z) :
  den_det (B, A) seg2 = - den_det (A, B) seg2
  /\ x_num (B, A) seg2 = - x_num (A, B) seg2
  /\ y_num (B, A) seg2 = - y_num (A, B) seg2.
Proof. unfold den_det, x_num, y_num. cbn [fst snd]. repeat split; ring. Qed.

(** Two calls whose raw fractions are opposite give the same result. *)
Lemma seg_intersection_opposite (s1 s2 t1 t2 : seg_t Z) :
  den_det t1 t2 = - den_det s1 s2 ->
  x_num t1 t2 = - x_num s1 s2 ->
  y_num t1 t2 = - y_num s1 s2 ->
  seg_intersection t1 t2 = seg_intersection s1 s2.
Proof.
  intros Hd Hx Hy.
  destruct (Z.eq_dec (den_det s1 s2) 0) as [E | E].
  - rewrite !seg_intersection_parallel by lia. reflexivity.
  - rewrite !seg_intersection_some by lia. rewrite Hd, Hx, Hy.
    rewrite (reduced_cross_eq (- x_num s1 s2) (- den_det s1 s2)
               (x_num s1 s2) (den_det s1 s2)) by lia.
    rewrite (reduced_cross_eq (- y_num s1 s2) (- den_det s1 s2)
               (y_num s1 s2) (den_det s1 s2)) by lia.
    reflexivity.
Qed.

(** X18. [seg_intersection] returns the very same result, with the same
    numerators and denominators, when its two segments are exchanged and
    when the endpoints of either segment are exchanged. *)
Theorem seg_intersection_symmetries (A B C D : pos_t Z) :
  seg_intersection (C, D) (A, B) = seg_intersection (A, B) (C, D)
  /\ seg_intersection (B, A) (C, D) = seg_intersection (A, B) (C, D)
  /\ seg_intersection (A, B) (D, C) = seg_intersection (A, B) (C, D).
Proof.
  split; [| split].
  - destruct (den_det_swap (A, B) (C, D)) as (Hd & Hx & Hy).
    apply seg_intersection_opposite; assumption.
  - destruct (den_det_reverse A B (C, D)) as (Hd & Hx & Hy).
    apply seg_intersection_opposite; assumption.
  - apply seg_intersection_opposite;
      unfold den_det, x_num, y_num; cbn [fst snd]; ring.
Qed.

(** ** The intersection point depends on the two lines only *)

Lemma gcd_1_r (a : Z) : gcd a 1 = 1.
Proof.
  rewrite gcd_step by lia. rewrite Z.rem_1_r. apply gcd_0_r.
Qed.

(** Cramer's rule over the integers: an integer point on both lines. *)
Lemma cramer_Z (seg1 seg2 : seg_t Z) (p : pos_t Z) :
  side_value seg1 p = 0 -> side_value seg2 p = 0 ->
  x p * den_det seg1 seg2 = x_num seg1 seg2
  /\ y p * den_det seg1 seg2 = y_num seg1 seg2.
Proof.
  destruct seg1 as [A B], seg2 as [C D]. rewrite !side_value_zero.
  unfold den_det, x_num, y_num. cbn [fst snd].
  set (l1 := (x B - x A) * (y p - y A) - (y B - y A) * (x p - x A)).
  set (l2 := (x D - x C) * (y p - y C) - (y D - y C) * (x p - x C)).
  intros H1 H2. split.
  - match goal with |- ?l = ?r =>
      replace l with (r + ((x D - x C) * l1 - (x B - x A) * l2))
        by (unfold l1, l2; ring)
    end.
    rewrite H1, H2. ring.
  - match goal with |- ?l = ?r =>
      replace l with (r + ((y D - y C) * l1 - (y B - y A) * l2))
        by (unfold l1, l2; ring)
    end.
    rewrite H1, H2. ring.
Qed.

(** X19. When the two lines are not parallel and meet in a point with
    integer coordinates, for instance an endpoint the segments share,
    [seg_intersection] returns that point with both denominators 1. *)
Theorem seg_intersection_integer_point (seg1 seg2 : seg_t Z) (p : pos_t Z) :
  den_det seg1 seg2 <> 0 ->
  side seg1 p = Ok 0 -> side seg2 p = Ok 0 ->
  seg_intersection seg1 seg2
  = Ok (Some (mkPoint {| num := x p; den := 1 |} {| num := y p; den := 1 |})).
Proof.
  rewrite !side_ok. intros Hd H1 H2.
  injection H1 as H1. injection H2 as H2.
  destruct (cramer_Z seg1 seg2 p H1 H2) as [Hx Hy].
  rewrite seg_intersection_some by assumption.
  rewrite (reduced_cross_eq (x_num seg1 seg2) (den_det seg1 seg2) (x p) 1)
    by lia.
  rewrite (reduced_cross_eq (y_num seg1 seg2) (den_det seg1 seg2) (y p) 1)
    by lia.
  unfold reduced. cbn [num den]. rewrite !gcd_1_r, !Z.quot_1_r. reflexivity.
Qed.

Lemma seg_intersection_integer_point_witness :
  den_det (mkPoint 3 (-4), mkPoint 5 1) (mkPoint 3 (-4), mkPoint (-2) 7) <> 0
  /\ side (mkPoint 3 (-4), mkPoint 5 1) (mkPoint 3 (-4)) = Ok 0
  /\ side (mkPoint 3 (-4), mkPoint (-2) 7) (mkPoint 3 (-4)) = Ok 0
  /\ seg_intersection (mkPoint 3 (-4), mkPoint 5 1) (mkPoint 3 (-4), mkPoint (-2) 7)
     = Ok (Some (mkPoint {| num := 3; den := 1 |} {| num := -4; den := 1 |})).
Proof.
  assert (Hd : den_det (mkPoint 3 (-4), mkPoint 5 1)
                 (mkPoint 3 (-4), mkPoint (-2) 7) <> 0)
    by (vm_compute; discriminate).
  split; [exact Hd |]. split; [reflexivity |]. split; [reflexivity |].
  exact (seg_intersection_integer_point
           (mkPoint 3 (-4), mkPoint 5 1) (mkPoint 3 (-4), mkPoint (-2) 7)
           (mkPoint 3 (-4)) Hd eq_refl eq_refl).
Defined.

(** Two distinct points [A'], [B'] on the line through the distinct points
    [A], [B]: the difference and the 2x2 determinant of the one pair are
    those of the other pair up to a common nonzero ratio [mu / nu]. *)
Lemma same_line_scale (A B A' B' : pos_t Z) :
  side_value (A, B) A' = 0 -> side_value (A, B) B' = 0 ->
  A <> B -> A' <> B' ->
  exists nu mu : Z,
    nu <> 0 /\ mu <> 0
    /\ nu * (x A' - x B') = mu * (x A - x B)
    /\ nu * (y A' - y B') = mu * (y A - y B)
    /\ nu * (x A' * y B' - y A' * x B') = mu * (x A * y B - y A * x B).
Proof.
  rewrite !side_value_zero.
  destruct A as [a1 a2], B as [b1 b2], A' as [p1 p2], B' as [q1 q2].
  cbn [x y].
  set (cp := (b1 - a1) * (p2 - a2) - (b2 - a2) * (p1 - a1)).
  set (cq := (b1 - a1) * (q2 - a2) - (b2 - a2) * (q1 - a1)).
  intros Hp Hq Hab Hpq.
  assert (Hpar : (a1 - b1) * (p2 - q2) = (a2 - b2) * (p1 - q1)).
  { assert (E : (a1 - b1) * (p2 - q2) - (a2 - b2) * (p1 - q1) = cq - cp)
      by (unfold cp, cq; ring).
    rewrite Hp, Hq in E. lia. }
  assert (K1 : (a1 - b1) * (p1 * q2 - p2 * q1)
               = (p1 - q1) * (a1 * b2 - a2 * b1) + (q1 * cp - p1 * cq))
    by (unfold cp, cq; ring).
  assert (K2 : (a2 - b2) * (p1 * q2 - p2 * q1)
               = (p2 - q2) * (a1 * b2 - a2 * b1) + (q2 * cp - p2 * cq))
    by (unfold cp, cq; ring).
  rewrite Hp, Hq in K1, K2.
  destruct (Z.eq_dec a1 b1) as [E1 | E1].
  - assert (E2 : a2 <> b2) by congruence.
    exists (a2 - b2), (p2 - q2).
    assert (Hmu : p2 - q2 <> 0).
    { intros Hz. assert (p1 = q1) by nia. apply Hpq. f_equal; lia. }
    repeat split; lia.
  - exists (a1 - b1), (p1 - q1).
    assert (Hmu : p1 - q1 <> 0).
    { intros Hz. assert (p2 = q2) by nia. apply Hpq. f_equal; lia. }
    repeat split; lia.
Qed.

Lemma seg_intersection_swap (seg1 seg2 : seg_t Z) :
  seg_intersection seg2 seg1 = seg_intersection seg1 seg2.
Proof.
  destruct (den_det_swap seg1 seg2) as (Hd & Hx & Hy).
  apply seg_intersection_opposite; assumption.
Qed.

(** Replacing the first segment by another one on the same line. *)
Lemma seg_intersection_same_line_l (A B A' B' : pos_t Z) (seg2 : seg_t Z) :
  side_value (A, B) A' = 0 -> side_value (A, B) B' = 0 ->
  A <> B -> A' <> B' ->
  seg_intersection (A', B') seg2 = seg_intersection (A, B) seg2.
Proof.
  intros H1 H2 Hab Hpq.
  destruct (same_line_scale A B A' B' H1 H2 Hab Hpq)
    as (nu & mu & Hnu & Hmu & Ex & Ey & Em).
  assert (Hd : nu * den_det (A', B') seg2 = mu * den_det (A, B) seg2).
  { unfold den_det. cbn [fst snd].
    set (v1 := x (fst seg2) - x (snd seg2)) in *.
    set (v2 := y (fst seg2) - y (snd seg2)) in *.
    replace (nu * ((x A' - x B') * v2 - (y A' - y B') * v1))
      with (nu * (x A' - x B') * v2 - nu * (y A' - y B') * v1) by ring.
    rewrite Ex, Ey. ring. }
  assert (Hx : nu * x_num (A', B') seg2 = mu * x_num (A, B) seg2).
  { unfold x_num. cbn [fst snd].
    set (v1 := x (fst seg2) - x (snd seg2)) in *.
    set (m2 := x (fst seg2) * y (snd seg2) - y (fst seg2) * x (snd seg2)) in *.
    replace (nu * ((x A' * y B' - y A' * x B') * v1 - (x A' - x B') * m2))
      with (nu * (x A' * y B' - y A' * x B') * v1 - nu * (x A' - x B') * m2)
      by ring.
    rewrite Ex, Em. ring. }
  assert (Hy : nu * y_num (A', B') seg2 = mu * y_num (A, B) seg2).
  { unfold y_num. cbn [fst snd].
    set (v2 := y (fst seg2) - y (snd seg2)) in *.
    set (m2 := x (fst seg2) * y (snd seg2) - y (fst seg2) * x (snd seg2)) in *.
    replace (nu * ((x A' * y B' - y A' * x B') * v2 - (y A' - y B') * m2))
      with (nu * (x A' * y B' - y A' * x B') * v2 - nu * (y A' - y B') * m2)
      by ring.
    rewrite Ey, Em. ring. }
  destruct (Z.eq_dec (den_det (A, B) seg2) 0) as [E | E].
  - assert (E' : den_det (A', B') seg2 = 0).
    { rewrite E, Z.mul_0_r in Hd. apply Z.mul_eq_0 in Hd. tauto. }
    rewrite !seg_intersection_parallel by assumption. reflexivity.
  - assert (E' : den_det (A', B') seg2 <> 0).
    { intros Hz. rewrite Hz, Z.mul_0_r in Hd. symmetry in Hd.
      apply Z.mul_eq_0 in Hd. tauto. }
    rewrite !seg_intersection_some by assumption.
    assert (Cx : x_num (A', B') seg2 * den_det (A, B) seg2
                 = x_num (A, B) seg2 * den_det (A', B') seg2).
    { apply (Z.mul_reg_l _ _ nu Hnu).
      replace (nu * (x_num (A', B') seg2 * den_det (A, B) seg2))
        with (nu * x_num (A', B') seg2 * den_det (A, B) seg2) by ring.
      replace (nu * (x_num (A, B) seg2 * den_det (A', B') seg2))
        with (x_num (A, B) seg2 * (nu * den_det (A', B') seg2)) by ring.
      rewrite Hx, Hd. ring. }
    assert (Cy : y_num (A', B') seg2 * den_det (A, B) seg2
                 = y_num (A, B) seg2 * den_det (A', B') seg2).
    { apply (Z.mul_reg_l _ _ nu Hnu).
      replace (nu * (y_num (A', B') seg2 * den_det (A, B) seg2))
        with (nu * y_num (A', B') seg2 * den_det (A, B) seg2) by ring.
      replace (nu * (y_num (A, B) seg2 * den_det (A', B') seg2))
        with (y_num (A, B) seg2 * (nu * den_det (A', B') seg2)) by ring.
      rewrite Hy, Hd. ring. }
    rewrite (reduced_cross_eq _ _ _ _ E' E Cx),
            (reduced_cross_eq _ _ _ _ E' E Cy).
    reflexivity.
Qed.

(** X20. The result of [seg_intersection] depends only on the two lines:
    replacing each segment by any other segment with distinct endpoints
    on the same line gives the same result, with the same numerators and
    denominators. *)
Theorem seg_intersection_lines_only (A B C D A' B' C' D' : pos_t Z) :
  A <> B -> C <> D -> A' <> B' -> C' <> D' ->
  side (A, B) A' = Ok 0 -> side (A, B) B' = Ok 0 ->
  side (C, D) C' = Ok 0 -> side (C, D) D' = Ok 0 ->
  seg_intersection (A', B') (C', D') = seg_intersection (A, B) (C, D).
Proof.
  rewrite !side_ok. intros Hab Hcd Hab' Hcd' H1 H2 H3 H4.
  injection H1 as H1. injection H2 as H2.
  injection H3 as H3. injection H4 as H4.
  rewrite (seg_intersection_same_line_l A B A' B') by assumption.
  rewrite (seg_intersection_swap (C', D') (A, B)).
  rewrite (seg_intersection_same_line_l C D C' D') by assumption.
  apply seg_intersection_swap.
Qed.

Lemma seg_intersection_lines_only_witness :
  seg_intersection (mkPoint 4 4, mkPoint (-1) (-1)) (mkPoint 3 (-1), mkPoint (-2) 4)
  = seg_intersection (mkPoint 0 0, mkPoint 2 2) (mkPoint 0 2, mkPoint 2 0).
Proof.
  apply (seg_intersection_lines_only
           (mkPoint 0 0) (mkPoint 2 2) (mkPoint 0 2) (mkPoint 2 0)
           (mkPoint 4 4) (mkPoint (-1) (-1)) (mkPoint 3 (-1)) (mkPoint (-2) 4));
    try discriminate; reflexivity.
Defined.

(** ** Proper crossings *)

Lemma opposite_sides_cross (A B P R : pos_t Z) :
  opposite_sides (A, B) P R ->
  let c (S : pos_t Z) := (x B - x A) * (y S - y A) - (y B - y A) * (x S - x A) in
  (c P < 0 /\ 0 < c R) \/ (0 < c P /\ c R < 0).
Proof.
  rewrite opposite_sides_iff. unfold side_value. cbn [fst snd].
  rewrite !det_rows_cross. cbv zeta.
  destruct (sgn_cases ((x B - x A) * (y P - y A) - (y B - y A) * (x P - x A)))
    as [[H1 ->] | [[H1 ->] | [H1 ->]]];
    destruct (sgn_cases ((x B - x A) * (y R - y A) - (y B - y A) * (x R - x A)))
      as [[H2 ->] | [[H2 ->] | [H2 ->]]]; lia.
Qed.

(** For integers [p], [q] of strictly opposite signs, [p / (p - q)] is
    strictly between 0 and 1. *)
Lemma ratio_between (p q : Z) :
  (p < 0 /\ 0 < q) \/ (0 < p /\ q < 0) ->
  (0 < inject_Z p / inject_Z (p - q)
   /\ inject_Z p / inject_Z (p - q) < 1)%Q.
Proof.
  assert (Pos : forall a d : Z, 0 < a -> a < d ->
                (0 < inject_Z a / inject_Z d /\ inject_Z a / inject_Z d < 1)%Q).
  { intros a d Ha Hd. split.
    - apply Qlt_shift_div_l.
      + change 0%Q with (inject_Z 0). rewrite <- Zlt_Qlt. lia.
      + rewrite Qmult_0_l. change 0%Q with (inject_Z 0).
        rewrite <- Zlt_Qlt. lia.
    - apply Qlt_shift_div_r.
      + change 0%Q with (inject_Z 0). rewrite <- Zlt_Qlt. lia.
      + rewrite Qmult_1_l, <- Zlt_Qlt. lia. }
  intros [[Hp Hq] | [Hp Hq]].
  - assert (E : (inject_Z p / inject_Z (p - q)
                 == inject_Z (- p) / inject_Z (- (p - q)))%Q).
    { rewrite !inject_Z_opp. field. apply inject_Z_nonzero. lia. }
    rewrite E. apply Pos; lia.
  - apply Pos; lia.
Qed.

Lemma param_eq (n d a b c : Z) :
  d <> 0 -> n = a * d + c * (b - a) ->
  (inject_Z n / inject_Z d
   == inject_Z a + inject_Z c / inject_Z d * (inject_Z b - inject_Z a))%Q.
Proof.
  intros Hd ->. apply inject_Z_nonzero in Hd.
  push_inject_Z. field. exact Hd.
Qed.

(** X21. When the endpoints of each segment are strictly on opposite
    sides of the other segment, [seg_intersects] returns true,
    [seg_intersection] returns a point, and that point is strictly inside
    both segments. *)
Theorem proper_crossing_point (seg1 seg2 : seg_t Z) :
  opposite_sides seg1 (fst seg2) (snd seg2) ->
  opposite_sides seg2 (fst seg1) (snd seg1) ->
  seg_intersects seg1 seg2 = Ok true
  /\ exists fx fy : Fraction,
       seg_intersection seg1 seg2 = Ok (Some (mkPoint fx fy))
       /\ strictly_inside seg1 (to_Q fx) (to_Q fy)
       /\ strictly_inside seg2 (to_Q fx) (to_Q fy).
Proof.
  intros O1 O2. split.
  - rewrite seg_intersects_ok.
    apply opposite_sides_iff in O1, O2.
    destruct O1 as (N1 & _), O2 as (N2 & _).
    apply Z.eqb_neq in N1, N2. rewrite N1, N2. reflexivity.
  - destruct seg1 as [A B], seg2 as [C D]. cbn [fst snd] in *.
    apply opposite_sides_cross in O1, O2. cbv zeta in O1, O2.
    set (c1C := (x B - x A) * (y C - y A) - (y B - y A) * (x C - x A)) in *.
    set (c1D := (x B - x A) * (y D - y A) - (y B - y A) * (x D - x A)) in *.
    set (c2A := (x D - x C) * (y A - y C) - (y D - y C) * (x A - x C)) in *.
    set (c2B := (x D - x C) * (y B - y C) - (y D - y C) * (x B - x C)) in *.
    set (dd := den_det (A, B) (C, D)).
    assert (D1 : dd = c2A - c2B)
      by (unfold dd, den_det, c2A, c2B; cbn [fst snd]; ring).
    assert (D2 : dd = - c1C - - c1D)
      by (unfold dd, den_det, c1C, c1D; cbn [fst snd]; ring).
    assert (Hd : dd <> 0) by lia.
    set (fx := {| num := x_num (A, B) (C, D); den := dd |}).
    set (fy := {| num := y_num (A, B) (C, D); den := dd |}).
    exists (reduced fx), (reduced fy).
    split; [apply seg_intersection_some; exact Hd |].
    assert (Ex : (to_Q (reduced fx) == to_Q fx)%Q)
      by (apply to_Q_reduced; exact Hd).
    assert (Ey : (to_Q (reduced fy) == to_Q fy)%Q)
      by (apply to_Q_reduced; exact Hd).
    unfold strictly_inside. cbn [fst snd]. split.
    + exists (inject_Z c2A / inject_Z dd)%Q.
      destruct (ratio_between c2A c2B ltac:(lia)) as [T0 T1].
      rewrite <- D1 in T0, T1.
      split; [exact T0 |]. split; [exact T1 |].
      rewrite Ex, Ey. unfold to_Q, fx, fy. cbn [num den].
      split; apply param_eq; try exact Hd;
        unfold x_num, y_num, dd, den_det, c2A; cbn [fst snd]; ring.
    + exists (inject_Z (- c1C) / inject_Z dd)%Q.
      destruct (ratio_between (- c1C) (- c1D) ltac:(lia)) as [T0 T1].
      rewrite <- D2 in T0, T1.
      split; [exact T0 |]. split; [exact T1 |].
      rewrite Ex, Ey. unfold to_Q, fx, fy. cbn [num den].
      split; apply param_eq; try exact Hd;
        unfold x_num, y_num, dd, den_det, c1C; cbn [fst snd]; ring.
Qed.

Lemma proper_crossing_point_witness :
  opposite_sides (mkPoint 0 0, mkPoint 4 1) (mkPoint 1 (-1)) (mkPoint 2 3)
  /\ opposite_sides (mkPoint 1 (-1), mkPoint 2 3) (mkPoint 0 0) (mkPoint 4 1)
  /\ exists fx fy : Fraction,
       seg_intersection (mkPoint 0 0, mkPoint 4 1) (mkPoint 1 (-1), mkPoint 2 3)
       = Ok (Some (mkPoint fx fy))
       /\ strictly_inside (mkPoint 0 0, mkPoint 4 1) (to_Q fx) (to_Q fy)
       /\ strictly_inside (mkPoint 1 (-1), mkPoint 2 3) (to_Q fx) (to_Q fy).
Proof.
  assert (O1 : opposite_sides (mkPoint 0 0, mkPoint 4 1)
                 (mkPoint 1 (-1)) (mkPoint 2 3))
    by (left; split; reflexivity).
  assert (O2 : opposite_sides (mkPoint 1 (-1), mkPoint 2 3)
                 (mkPoint 0 0) (mkPoint 4 1))
    by (right; split; reflexivity).
  split; [exact O1 |]. split; [exact O2 |].
  exact (proj2 (proper_crossing_point
                  (mkPoint 0 0, mkPoint 4 1) (mkPoint 1 (-1), mkPoint 2 3)
                  O1 O2)).
Defined.

(** ** Printing *)

Local Open Scope string_scope.

Example Point_print_example :
  Point_print show_Z [] (mkPoint 3 (-4))
  = String.list_ascii_of_string "(3;-4)".
Proof. reflexivity. Qed.

Example Point_Fraction_print_example :
  Point_print (Fraction_print show_Z [])
    (String.list_ascii_of_string "p = ")
    (mkPoint {| num := 15; den := 4 |} {| num := -5; den := 4 |})
  = String.list_ascii_of_string "p = (15/4;-5/4)".
Proof. reflexivity. Qed.

Local Close Scope string_scope.

(** Two texts cut at the first occurrence of a separator. *)
Lemma split_at_separator (c : ascii) (s1 t1 s2 t2 : list ascii) :
  ~ In c s1 -> ~ In c t1 ->
  s1 ++ c :: s2 = t1 ++ c :: t2 -> s1 = t1 /\ s2 = t2.
Proof.
  revert t1. induction s1 as [| a s1 IH]; intros [| b t1] Hs Ht E;
    cbn [app] in E.
  - injection E as E. auto.
  - injection E as E1 E2. exfalso. apply Ht. left. congruence.
  - injection E as E1 E2. exfalso. apply Hs. left. congruence.
  - injection E as E1 E2.
    destruct (IH t1) as [F1 F2]; try assumption.
    + intros H. apply Hs. right. exact H.
    + intros H. apply Ht. right. exact H.
    + subst. auto.
Qed.

Lemma Point_print_inj (T : Type) (show : T -> list ascii)
  (os : list ascii) (p q : Point T) :
  (forall t, ~ In ";"%char (show t)) ->
  (forall a b, show a = show b -> a = b) ->
  Point_print show os p = Point_print show os q -> p = q.
Proof.
  intros Hsep Hinj E. unfold Point_print in E.
  apply app_inv_tail in E. rewrite <- !app_assoc in E.
  apply app_inv_head in E. cbn [app] in E. injection E as E.
  apply split_at_separator in E; [| apply Hsep | apply Hsep].
  destruct E as [Ex Ey]. apply Hinj in Ex, Ey.
  destruct p, q. cbn [x y] in *. congruence.
Qed.

Lemma Fraction_print_inj (show : Z -> list ascii)
  (os : list ascii) (f g : Fraction) :
  (forall t, ~ In "/"%char (show t)) ->
  (forall a b, show a = show b -> a = b) ->
  Fraction_print show os f = Fraction_print show os g -> f = g.
Proof.
  intros Hsep Hinj E. unfold Fraction_print in E.
  rewrite <- !app_assoc in E. apply app_inv_head in E. cbn [app] in E.
  apply split_at_separator in E; [| apply Hsep | apply Hsep].
  destruct E as [En Ed]. apply Hinj in En, Ed.
  destruct f, g. cbn [num den] in *. congruence.
Qed.

Lemma string_of_uint_chars (d : Decimal.uint) (c : ascii) :
  In c (String.list_ascii_of_string (DecimalString.NilEmpty.string_of_uint d)) ->
  decimal_char c.
Proof.
  unfold decimal_char.
  induction d; cbn [DecimalString.NilEmpty.string_of_uint
                    String.list_ascii_of_string In];
    intros H; try contradiction;
    destruct H as [<- | H]; try (cbn; tauto); auto.
Qed.

Lemma show_Z_chars (z : Z) (c : ascii) : In c (show_Z z) -> decimal_char c.
Proof.
  unfold show_Z.
  assert (U : forall d, In c (String.list_ascii_of_string
                                (DecimalString.NilZero.string_of_uint d)) ->
                        decimal_char c).
  { intros d. destruct d; try apply string_of_uint_chars.
    cbn. unfold decimal_char. cbn. tauto. }
  destruct (Z.to_int z) as [d | d];
    cbn [DecimalString.NilZero.string_of_int String.list_ascii_of_string In].
  - exact (U d).
  - intros [<- | H]; [unfold decimal_char; cbn; tauto | exact (U d H)].
Qed.

Lemma show_Z_inj (a b : Z) : show_Z a = show_Z b -> a = b.
Proof.
  unfold show_Z. intros E.
  apply (f_equal String.string_of_list_ascii) in E.
  rewrite !String.string_of_list_ascii_of_string in E.
  assert (N : forall z, Z.to_int z <> Decimal.Pos Decimal.Nil
                        /\ Z.to_int z <> Decimal.Neg Decimal.Nil).
  { intros [| p | p]; cbn; split; try discriminate;
      intros H; injection H as H;
      exact (DecimalPos.Unsigned.to_uint_nonnil p H). }
  apply (f_equal DecimalString.NilZero.int_of_string) in E.
  rewrite (DecimalString.NilZero.isi _ (proj1 (N a)) (proj2 (N a))) in E.
  rewrite (DecimalString.NilZero.isi _ (proj1 (N b)) (proj2 (N b))) in E.
  injection E as E. apply DecimalZ.to_int_inj. exact E.
Qed.

Lemma show_Z_no_separator (z : Z) :
  ~ In ";"%char (show_Z z) /\ ~ In "/"%char (show_Z z).
Proof.
  split; intros H; apply show_Z_chars in H; unfold decimal_char in H;
    cbn in H; intuition discriminate.
Qed.

(** X22. Printing a point writes [(x;y)] after what the stream already
    holds, and the text determines the point: when printing a coordinate
    never writes a semicolon and different coordinates print differently,
    two points that print the same are equal.  Decimal integers are such
    coordinates. *)
Theorem Point_print_unambiguous (T : Type) (show : T -> list ascii)
  (os : list ascii) (p q : Point T) :
  (forall t, ~ In ";"%char (show t)) ->
  (forall a b, show a = show b -> a = b) ->
  Point_print show os p
  = os ++ "("%char :: show (x p) ++ ";"%char :: show (y p) ++ [")"%char]
  /\ (Point_print show os p = Point_print show os q -> p = q).
Proof.
  intros Hsep Hinj. split.
  - unfold Point_print. rewrite <- !app_assoc. reflexivity.
  - apply Point_print_inj; assumption.
Qed.

Lemma Point_print_unambiguous_witness :
  (forall t, ~ In ";"%char (show_Z t))
  /\ (forall a b, show_Z a = show_Z b -> a = b)
  /\ (Point_print show_Z [] (mkPoint 3 (-4))
      = Point_print show_Z [] (mkPoint (1 + 2) (2 - 6))
      -> mkPoint 3 (-4) = mkPoint (1 + 2) (2 - 6)).
Proof.
  assert (H1 : forall t, ~ In ";"%char (show_Z t))
    by (intros t; apply show_Z_no_separator).
  split; [exact H1 |]. split; [exact show_Z_inj |].
  exact (proj2 (Point_print_unambiguous Z show_Z []
                  (mkPoint 3 (-4)) (mkPoint (1 + 2) (2 - 6)) H1 show_Z_inj)).
Defined.

(** X23. Printing a fraction writes [num/den] after what the stream
    already holds, and the text determines both fields when printing an
    integer never writes a slash and different integers print differently.
    A point whose coordinates are fractions then prints as
    [(num/den;num/den)], and that text determines the point when integers
    print without slash and semicolon.  Decimal integers print so. *)
Theorem Fraction_print_unambiguous (show : Z -> list ascii)
  (os : list ascii) (f g : Fraction) (p q : Point Fraction) :
  (forall t, ~ In "/"%char (show t)) ->
  (forall t, ~ In ";"%char (show t)) ->
  (forall a b, show a = show b -> a = b) ->
  Fraction_print show os f = os ++ show (num f) ++ "/"%char :: show (den f)
  /\ (Fraction_print show os f = Fraction_print show os g -> f = g)
  /\ (Point_print (Fraction_print show []) os p
      = Point_print (Fraction_print show []) os q -> p = q).
Proof.
  intros Hslash Hsemi Hinj. split; [| split].
  - unfold Fraction_print. rewrite <- !app_assoc. reflexivity.
  - apply Fraction_print_inj; assumption.
  - apply Point_print_inj.
    + intros t H. unfold Fraction_print in H. cbn [app] in H.
      apply in_app_or in H. destruct H as [H | H]; [| exact (Hsemi _ H)].
      apply in_app_or in H. destruct H as [H | H]; [exact (Hsemi _ H) |].
      destruct H as [H | []]. discriminate H.
    + intros a b. apply Fraction_print_inj; assumption.
Qed.

Lemma Fraction_print_unambiguous_witness :
  (forall t, ~ In "/"%char (show_Z t))
  /\ (forall t, ~ In ";"%char (show_Z t))
  /\ (forall a b, show_Z a = show_Z b -> a = b)
  /\ Fraction_print show_Z [] {| num := 15; den := -4 |}
     = [] ++ show_Z 15 ++ "/"%char :: show_Z (-4).
Proof.
  assert (H1 : forall t, ~ In "/"%char (show_Z t))
    by (intros t; apply show_Z_no_separator).
  assert (H2 : forall t, ~ In ";"%char (show_Z t))
    by (intros t; apply show_Z_no_separator).
  split; [exact H1 |]. split; [exact H2 |]. split; [exact show_Z_inj |].
  exact (proj1 (Fraction_print_unambiguous show_Z []
                  {| num := 15; den := -4 |} {| num := 15; den := -4 |}
                  (mkPoint {| num := 1; den := 1 |} {| num := 1; den := 1 |})
                  (mkPoint {| num := 1; den := 1 |} {| num := 1; den := 1 |})
                  H1 H2 show_Z_inj)).
Defined.

(** ** Parallel segments *)

(** Being parallel to a nonzero vector is transitive. *)
Lemma parallel_trans (v1 v2 u1 u2 w1 w2 : Z) :
  v1 <> 0 \/ v2 <> 0 ->
  v1 * u2 - v2 * u1 = 0 -> v1 * w2 - v2 * w1 = 0 ->
  u1 * w2 - u2 * w1 = 0.
Proof.
  intros Hv Hu Hw.
  assert (E1 : v1 * (u1 * w2 - u2 * w1) = 0).
  { replace (v1 * (u1 * w2 - u2 * w1))
      with (u1 * (v1 * w2 - v2 * w1) - w1 * (v1 * u2 - v2 * u1)) by ring.
    rewrite Hu, Hw. ring. }
  assert (E2 : v2 * (u1 * w2 - u2 * w1) = 0).
  { replace (v2 * (u1 * w2 - u2 * w1))
      with (u2 * (v1 * w2 - v2 * w1) - w2 * (v1 * u2 - v2 * u1)) by ring.
    rewrite Hu, Hw. ring. }
  apply Z.mul_eq_0 in E1, E2. tauto.
Qed.

(** X24. Two segments on parallel lines that do not coincide never
    intersect for the library: when [den_det] is zero, the first endpoint
    of the second segment is off the line of the first, and the second
    segment has distinct endpoints, [seg_intersects] returns false and
    [seg_intersection] is absent. *)
Theorem parallel_disjoint (A B C D : pos_t Z) :
  den_det (A, B) (C, D) = 0 ->
  side (A, B) C <> Ok 0 ->
  C <> D ->
  seg_intersects (A, B) (C, D) = Ok false
  /\ seg_intersection (A, B) (C, D) = Ok None.
Proof.
  intros Hd Hs Hcd. split; [| apply seg_intersection_parallel; exact Hd].
  rewrite side_ok in Hs.
  assert (S1 : side_value (A, B) C <> 0) by (intros E; apply Hs; now rewrite E).
  unfold den_det in Hd. cbn [fst snd] in Hd.
  assert (S2 : side_value (A, B) D = side_value (A, B) C).
  { unfold side_value. cbn [fst snd]. rewrite !det_rows_cross. f_equal. lia. }
  assert (V : x D - x C <> 0 \/ y D - y C <> 0).
  { destruct C as [c1 c2], D as [d1 d2]. cbn [x y].
    destruct (Z.eq_dec d1 c1) as [E1 | E1]; [| lia].
    destruct (Z.eq_dec d2 c2) as [E2 | E2]; [| lia].
    exfalso. apply Hcd. congruence. }
  assert (S3 : side_value (C, D) A <> 0).
  { rewrite side_value_zero. intros E. apply S1. apply side_value_zero.
    pose proof (parallel_trans (x D - x C) (y D - y C)
                  (x B - x A) (y B - y A) (x A - x C) (y A - y C) V
                  ltac:(lia) E) as P.
    lia. }
  assert (S4 : side_value (C, D) B = side_value (C, D) A).
  { unfold side_value. cbn [fst snd]. rewrite !det_rows_cross. f_equal. lia. }
  rewrite seg_intersects_ok. cbn [fst snd].
  unfold seg_contains_value. rewrite S2, S4.
  apply Z.eqb_neq in S1, S3. rewrite S1, S3, !Z.eqb_refl. reflexivity.
Qed.

Lemma parallel_disjoint_witness :
  den_det (mkPoint 0 0, mkPoint 4 2) (mkPoint 1 3, mkPoint 3 4) = 0
  /\ side (mkPoint 0 0, mkPoint 4 2) (mkPoint 1 3) <> Ok 0
  /\ mkPoint 1 3 <> mkPoint 3 4
  /\ seg_intersects (mkPoint 0 0, mkPoint 4 2) (mkPoint 1 3, mkPoint 3 4)
     = Ok false
  /\ seg_intersection (mkPoint 0 0, mkPoint 4 2) (mkPoint 1 3, mkPoint 3 4)
     = Ok None.
Proof.
  assert (H1 : den_det (mkPoint 0 0, mkPoint 4 2) (mkPoint 1 3, mkPoint 3 4) = 0)
    by reflexivity.
  assert (H2 : side (mkPoint 0 0, mkPoint 4 2) (mkPoint 1 3) <> Ok 0)
    by (vm_compute; discriminate).
  assert (H3 : mkPoint 1 3 <> mkPoint 3 4) by discriminate.
  split; [exact H1 |]. split; [exact H2 |]. split; [exact H3 |].
  exact (parallel_disjoint (mkPoint 0 0) (mkPoint 4 2) (mkPoint 1 3)
           (mkPoint 3 4) H1 H2 H3).
Defined.

(** ** Non-negative arguments, and boxes with positive upper bounds *)

(** X25. On non-negative arguments the loop returns the mathematical
    greatest common divisor, which is not negative. *)
Theorem gcd_nonneg (a b : Z) :
  0 <= a -> 0 <= b -> gcd a b = Z.gcd a b /\ 0 <= gcd a b.
Proof.
  intros Ha Hb.
  assert (H : 0 <= gcd a b).
  { revert Ha Hb. funelim (gcd a b); intros Ha Hb.
    - exact Ha.
    - match goal with IH : _ -> _ -> 0 <= gcd _ _ |- _ => apply IH end.
      + exact Hb.
      + apply Z.rem_nonneg; lia. }
  split; [| exact H]. rewrite <- gcd_abs. symmetry. apply Z.abs_eq. exact H.
Qed.

Lemma gcd_nonneg_witness :
  0 <= 12 /\ 0 <= 18 /\ gcd 12 18 = Z.gcd 12 18.
Proof.
  split; [lia |]. split; [lia |].
  exact (proj1 (gcd_nonneg 12 18 ltac:(lia) ltac:(lia))).
Defined.

(** X26. When the larger endpoint coordinate of each segment is at least 1
    on both axes, [seg_intersects] misses no intersection: if the segments
    cross properly or an endpoint of one lies on the other (collinear and
    inside its box), it returns true. *)
Theorem seg_intersects_no_miss (seg1 seg2 : seg_t Z) :
  1 <= Z.max (x (fst seg1)) (x (snd seg1)) ->
  1 <= Z.max (y (fst seg1)) (y (snd seg1)) ->
  1 <= Z.max (x (fst seg2)) (x (snd seg2)) ->
  1 <= Z.max (y (fst seg2)) (y (snd seg2)) ->
  seg_intersects_spec seg1 seg2 -> seg_intersects seg1 seg2 = Ok true.
Proof.
  intros X1 Y1 X2 Y2 H.
  assert (C : forall seg p,
             1 <= Z.max (x (fst seg)) (x (snd seg)) ->
             1 <= Z.max (y (fst seg)) (y (snd seg)) ->
             seg_contains_spec seg p -> seg_contains_value seg p = true).
  { intros seg p Hx Hy [Hs _].
    assert (T : seg_contains seg p = Ok true)
      by (apply seg_contains_true; auto).
    rewrite seg_contains_ok in T. now injection T. }
  rewrite seg_intersects_ok.
  apply seg_intersects_spec_sides in H.
  destruct H as [[N1 N2] | [H | [H | [H | H]]]].
  - apply Z.eqb_neq in N1, N2. rewrite N1, N2. reflexivity.
  - rewrite (C _ _ X1 Y1 H), !orb_true_r. reflexivity.
  - rewrite (C _ _ X1 Y1 H), !orb_true_r. reflexivity.
  - rewrite (C _ _ X2 Y2 H), !orb_true_r. reflexivity.
  - rewrite (C _ _ X2 Y2 H), !orb_true_r. reflexivity.
Qed.

Lemma seg_intersects_no_miss_witness :
  seg_intersects_spec (mkPoint 1 1, mkPoint 3 3) (mkPoint 3 3, mkPoint 5 1)
  /\ seg_intersects (mkPoint 1 1, mkPoint 3 3) (mkPoint 3 3, mkPoint 5 1)
     = Ok true.
Proof.
  assert (H : seg_intersects_spec (mkPoint 1 1, mkPoint 3 3)
                (mkPoint 3 3, mkPoint 5 1)).
  { right; left. split; [reflexivity |].
    unfold in_bbox. cbn [fst snd x y]. lia. }
  split; [exact H |].
  apply (seg_intersects_no_miss
           (mkPoint 1 1, mkPoint 3 3) (mkPoint 3 3, mkPoint 5 1));
    [cbn; lia | cbn; lia | cbn; lia | cbn; lia | exact H].
Defined.
